(** * OrderProcessingStack: the order-processing pipeline of ldk-sample-project

    A shallow embedding of [lib/order-processing-stack.ts].  The stack is a
    declaration of cloud resources; the constructs are embedded as records
    holding the properties the stack writes, and the services that interpret
    them (the Amazon States Language for the [OrderWorkflow] state machine,
    the redrive policy of the queue, the key schema of the table, the
    parameter store) are embedded as executable functions over those
    records. *)

From Stdlib Require Import String Ascii ZArith QArith List Bool Lia.
From stdpp Require Import base strings gmap list.
Import ListNotations.

Set Warnings "-register-all".
Local Open Scope string_scope.
Local Open Scope list_scope.

(** ** JSON documents

    State inputs and outputs, Lambda payloads and table items are JSON
    values.  An object keeps its members in insertion order, as a JavaScript
    object does. *)
Module Json.

Inductive json : Type :=
| JNull
| JBool (b : bool)
| JNum (q : Q)
| JStr (s : string)
| JArr (items : list json)
| JObj (members : list (string * json)).

(** [obj[k]] *)
Fixpoint get_field (k : string) (members : list (string * json)) : option json :=
  match members with
  | [] => None
  | (k', v) :: rest => if String.eqb k k' then Some v else get_field k rest
  end.

(** [obj[k] = v]: an existing member is replaced in place, a new one is
    added after the others. *)
Fixpoint set_field (k : string) (v : json) (members : list (string * json))
  : list (string * json) :=
  match members with
  | [] => [(k, v)]
  | (k', v') :: rest =>
      if String.eqb k k' then (k, v) :: rest else (k', v') :: set_field k v rest
  end.

(** A reference path such as [$.validation], split at its dots. *)
Fixpoint split_dot (s : string) (acc : string) : list string :=
  match s with
  | EmptyString => [acc]
  | String c s' =>
      if Ascii.eqb c "."%char then acc :: split_dot s' ""
      else split_dot s' (acc ++ String c "")
  end.

Definition parse_path (p : string) : option (list string) :=
  match split_dot p "" with
  | "$" :: segments => Some segments
  | _ => None
  end.

(** Selecting the value a path addresses (InputPath, OutputPath). *)
Fixpoint get_path (segments : list string) (doc : json) : option json :=
  match segments with
  | [] => Some doc
  | k :: rest =>
      match doc with
      | JObj members =>
          match get_field k members with
          | Some child => get_path rest child
          | None => None
          end
      | _ => None
      end
  end.

(** Placing a value at a path (ResultPath): the addressed member is
    overwritten, or created with the intervening objects when absent; a
    path through a value that is not an object cannot be applied. *)
Fixpoint set_path (segments : list string) (v : json) (doc : json) : option json :=
  match segments with
  | [] => Some v
  | k :: rest =>
      match doc with
      | JObj members =>
          let child :=
            match get_field k members with
            | Some c => c
            | None => JObj []
            end in
          match set_path rest v child with
          | Some child' => Some (JObj (set_field k child' members))
          | None => None
          end
      | _ => None
      end
  end.

End Json.
Import Json.

(** ** Constructs of the stack *)
Module Cdk.

(** [cdk.Duration] *)
Inductive Duration : Type :=
| Duration_seconds (amount : nat)
| Duration_minutes (amount : nat).

Definition toSeconds (d : Duration) : nat :=
  match d with
  | Duration_seconds n => n
  | Duration_minutes n => 60 * n
  end.

(** [dynamodb.Table] *)
Inductive AttributeType : Type := BINARY | NUMBER | STRING.

Record Attribute : Type := { name : string; type : AttributeType }.

Record Table : Type := {
  tableName : string;
  partitionKey : Attribute
}.

(** [sqs.Queue] *)
Inductive Queue : Type := mkQueue {
  queueName : string;
  deadLetterQueue : option DeadLetterQueue
}
with DeadLetterQueue : Type := mkDeadLetterQueue {
  queue : Queue;
  maxReceiveCount : nat
}.

(** [ssm.StringParameter] *)
Record StringParameter : Type := {
  parameterName : string;
  stringValue : string;
  description : string
}.

(** [lambda.Function].  An environment value is a literal, or an attribute
    of another construct that is resolved at deployment. *)
Inductive Value : Type :=
| Literal (s : string)
| Attr (construct attribute : string).

Record Function : Type := {
  functionName : string;
  handler : string;
  code : string;
  environment : list (string * Value)
}.

(** [lambdaEvents.SqsEventSource], with the function it is added to. *)
Record SqsEventSource : Type := {
  source : Queue;
  batchSize : nat;
  target : Function
}.

(** The [grant*] calls. *)
Inductive Access : Type :=
| ReadData | ReadWriteData | SendMessages | Publish | WriteObjects | Read.

Record Grant : Type := {
  resource : string;
  access : Access;
  grantee : Function
}.

(** [sfn.Pass], [tasks.LambdaInvoke], [sfn.Succeed] *)
Record PassProps : Type := {
  result : json;
  resultPath : string
}.

Record LambdaInvokeProps : Type := {
  lambdaFunction : Function;
  outputPath : string
}.

Inductive StateKind : Type :=
| Pass (props : PassProps)
| LambdaInvoke (props : LambdaInvokeProps)
| Succeed.

Record State : Type := {
  stateName : string;
  kind : StateKind;
  nextState : option string
}.

(** [sfn.Chain]: a start state, the states whose [next] is still open, and
    the states reachable from the start. *)
Record Chain : Type := {
  startState : string;
  endStates : list string;
  states : list State
}.

(** A [Succeed] state ends the execution and has no open end. *)
Definition State_endStates (s : State) : list string :=
  match kind s with
  | Succeed => []
  | _ => [stateName s]
  end.

Definition addNext (n : State) (s : State) : State :=
  {| stateName := stateName s; kind := kind s; nextState := Some (stateName n) |}.

(** [state.next(n)] *)
Definition State_next (s n : State) : Chain :=
  {| startState := stateName s;
     endStates := State_endStates n;
     states := [addNext n s; n] |}.

(** [chain.next(n)]: every open end of the chain continues with [n]. *)
Definition Chain_next (c : Chain) (n : State) : Chain :=
  {| startState := startState c;
     endStates := State_endStates n;
     states :=
       map (fun s =>
              if existsb (String.eqb (stateName s)) (endStates c)
              then addNext n s else s) (states c) ++ [n] |}.

(** [sfn.StateMachine] *)
Record StateMachine : Type := {
  stateMachineName : string;
  definitionBody : Chain;
  timeout : option Duration
}.

End Cdk.
Import Cdk.

(** ** The stack *)
Module OrderProcessingStack.

Definition ordersTable : Table :=
  {| tableName := "Orders";
     partitionKey := {| name := "orderId"; type := STRING |} |}.

Definition orderDlq : Queue :=
  {| queueName := "order-dlq"; deadLetterQueue := None |}.

Definition orderQueue : Queue :=
  {| queueName := "order-queue";
     deadLetterQueue := Some {| queue := orderDlq; maxReceiveCount := 3 |} |}.

Definition appConfigParam : StringParameter :=
  {| parameterName := "/orders/config/max-items";
     stringValue := "100";
     description := "Maximum items per order" |}.

Definition createOrderFn : Function :=
  {| functionName := "CreateOrderFunction";
     handler := "index.handler";
     code := "lambda/create-order";
     environment :=
       [("TABLE_NAME", Literal (tableName ordersTable));
        ("QUEUE_URL", Attr "OrderQueue" "queueUrl")] |}.

Definition getOrderFn : Function :=
  {| functionName := "GetOrderFunction";
     handler := "index.handler";
     code := "lambda/get-order";
     environment := [("TABLE_NAME", Literal (tableName ordersTable))] |}.

Definition processOrderFn : Function :=
  {| functionName := "ProcessOrderFunction";
     handler := "index.handler";
     code := "lambda/process-order";
     environment :=
       [("TABLE_NAME", Literal (tableName ordersTable));
        ("TOPIC_ARN", Attr "OrderNotifications" "topicArn");
        ("BUCKET_NAME", Attr "ReceiptsBucket" "bucketName");
        ("MAX_ITEMS_PARAM", Literal (parameterName appConfigParam));
        ("NOTIFICATION_SECRET_ARN", Attr "NotificationApiKey" "secretArn")] |}.

Definition generateReceiptFn : Function :=
  {| functionName := "GenerateReceiptFunction";
     handler := "index.handler";
     code := "lambda/generate-receipt";
     environment := [("BUCKET_NAME", Attr "ReceiptsBucket" "bucketName")] |}.

Definition grants : list Grant :=
  [ {| resource := "OrdersTable"; access := ReadWriteData; grantee := createOrderFn |};
    {| resource := "OrdersTable"; access := ReadData; grantee := getOrderFn |};
    {| resource := "OrdersTable"; access := ReadWriteData; grantee := processOrderFn |};
    {| resource := "OrderQueue"; access := SendMessages; grantee := createOrderFn |};
    {| resource := "OrderNotifications"; access := Publish; grantee := processOrderFn |};
    {| resource := "ReceiptsBucket"; access := WriteObjects; grantee := processOrderFn |};
    {| resource := "ReceiptsBucket"; access := WriteObjects; grantee := generateReceiptFn |};
    {| resource := "AppConfigParam"; access := Read; grantee := processOrderFn |};
    {| resource := "NotificationApiKey"; access := Read; grantee := processOrderFn |} ].

Definition stringParameters : list StringParameter := [appConfigParam].

Definition orderEventSource : SqsEventSource :=
  {| source := orderQueue; batchSize := 10; target := processOrderFn |}.

Definition eventSources : list SqsEventSource := [orderEventSource].

Definition validateOrder : State :=
  {| stateName := "ValidateOrder";
     kind := Pass {| result := JObj [("validated", JBool true)];
                     resultPath := "$.validation" |};
     nextState := None |}.

Definition processPayment : State :=
  {| stateName := "ProcessPayment";
     kind := Pass {| result := JObj [("paymentStatus", JStr "SUCCESS")];
                     resultPath := "$.payment" |};
     nextState := None |}.

Definition generateReceipt : State :=
  {| stateName := "GenerateReceipt";
     kind := LambdaInvoke {| lambdaFunction := generateReceiptFn;
                             outputPath := "$.Payload" |};
     nextState := None |}.

Definition notifyCustomer : State :=
  {| stateName := "NotifyCustomer";
     kind := LambdaInvoke {| lambdaFunction := processOrderFn;
                             outputPath := "$.Payload" |};
     nextState := None |}.

Definition orderComplete : State :=
  {| stateName := "OrderComplete"; kind := Succeed; nextState := None |}.

Definition definition : Chain :=
  Chain_next
    (Chain_next
       (Chain_next (State_next validateOrder processPayment) generateReceipt)
       notifyCustomer)
    orderComplete.

Definition OrderWorkflow : StateMachine :=
  {| stateMachineName := "OrderWorkflow";
     definitionBody := definition;
     timeout := Some (Duration_minutes 5) |}.

End OrderProcessingStack.
Import OrderProcessingStack.

(** ** Executing a state machine (Amazon States Language)

    The Lambda handlers and the time the service spends in a state are the
    environment of an execution.  A function is invoked at most once per
    execution of [OrderWorkflow], so a function from the payload to the
    outcome of the invocation covers every behaviour of a handler. *)
Module Asl.

Inductive InvokeResult : Type :=
| Returned (payload : json)
| Thrown (errorType : string).

Record Environment : Type := {
  invoke : string -> json -> InvokeResult;
  (** seconds between entering a state with an input and leaving it *)
  latency : string -> json -> nat
}.

(** What the [lambda:invoke] integration hands to the task on success (the
    HTTP metadata of the response left out). *)
Definition invoke_output (payload : json) : json :=
  JObj [("ExecutedVersion", JStr "$LATEST");
        ("Payload", payload);
        ("StatusCode", JNum (200 # 1))].

Inductive StepResult : Type :=
| Output (doc : json)
| Error (error : string).

(** ResultPath places the result in the input; OutputPath selects the part
    of the result that becomes the output of the state. *)
Definition apply_result_path (path : string) (input res : json) : StepResult :=
  match parse_path path with
  | Some segments =>
      match set_path segments res input with
      | Some doc => Output doc
      | None => Error "States.ResultPathMatchFailure"
      end
  | None => Error "States.Runtime"
  end.

Definition apply_output_path (path : string) (doc : json) : StepResult :=
  match parse_path path with
  | Some segments =>
      match get_path segments doc with
      | Some out => Output out
      | None => Error "States.Runtime"
      end
  | None => Error "States.Runtime"
  end.

(** One state.  A [Pass] state puts its [result] at [resultPath] of its
    input.  A [LambdaInvoke] task sends its input as the payload; its result
    replaces the input (ResultPath is [$] when not given) and [outputPath]
    selects the output; an error of the handler fails the state: the stack
    declares no catcher, and the retrier the construct adds by default
    covers errors of the Lambda service only, whose attempts are part of
    [invoke] and [latency].  [Succeed] passes its input on. *)
Definition run_state (env : Environment) (s : State) (input : json) : StepResult :=
  match kind s with
  | Pass props => apply_result_path (resultPath props) input (result props)
  | LambdaInvoke props =>
      match invoke env (functionName (lambdaFunction props)) input with
      | Returned payload => apply_output_path (outputPath props) (invoke_output payload)
      | Thrown errorType => Error errorType
      end
  | Succeed => Output input
  end.

Inductive Status : Type :=
| SUCCEEDED (output : json)
| FAILED (error : string).

(** A state-entered event of the execution history. *)
Record Event : Type := {
  enteredState : string;
  input : json;
  enteredAt : nat
}.

Record Execution : Type := {
  history : list Event;
  status : Status;
  stoppedAt : nat
}.

Definition find_state (n : string) (sts : list State) : option State :=
  List.find (fun s => String.eqb (stateName s) n) sts.

(** The execution has run longer than the timeout of the state machine. *)
Definition timed_out (limit : option Duration) (t : nat) : bool :=
  match limit with
  | Some d => Nat.ltb (toSeconds d) t
  | None => false
  end.

Definition deadline (limit : option Duration) (t : nat) : nat :=
  match limit with
  | Some d => toSeconds d
  | None => t
  end.

Definition entered (e : Event) (rest : Execution) : Execution :=
  {| history := e :: history rest;
     status := status rest;
     stoppedAt := stoppedAt rest |}.

(** The interpreter: enter [current] with [doc] at time [clock]; when the
    state would end after the timeout the execution fails with
    [States.Timeout] at the deadline; otherwise the state runs, an error
    fails the execution, and an output goes to the next state or ends the
    execution.  [None] when the fuel runs out or a state is missing. *)
Fixpoint exec (fuel : nat) (sm : StateMachine) (env : Environment)
  (current : string) (doc : json) (clock : nat) : option Execution :=
  match fuel with
  | O => None
  | S fuel' =>
      match find_state current (states (definitionBody sm)) with
      | None => None
      | Some s =>
          let e := {| enteredState := current; input := doc; enteredAt := clock |} in
          let finish := clock + latency env current doc in
          if timed_out (timeout sm) finish then
            Some {| history := [e];
                    status := FAILED "States.Timeout";
                    stoppedAt := deadline (timeout sm) finish |}
          else
            match run_state env s doc with
            | Error error =>
                Some {| history := [e]; status := FAILED error; stoppedAt := finish |}
            | Output out =>
                match nextState s with
                | None =>
                    Some {| history := [e]; status := SUCCEEDED out; stoppedAt := finish |}
                | Some n => entered e <$> exec fuel' sm env n out finish
                end
            end
      end
  end.

(** [StartExecution]: one state of the definition is entered per unit of
    fuel, which is enough for a definition without a cycle. *)
Definition start_execution (sm : StateMachine) (env : Environment) (doc : json)
  : option Execution :=
  exec (length (states (definitionBody sm))) sm env
       (startState (definitionBody sm)) doc 0.

Definition entered_states (x : Execution) : list string :=
  map enteredState (history x).

End Asl.
Import Asl.

(** ** The queue and its redrive policy (SQS)

    A message counts its receptions.  Receiving a message that has already
    been received [maxReceiveCount] times moves it to the dead-letter queue
    instead of delivering it. *)
Module Sqs.

Record Message : Type := {
  messageId : string;
  body : json;
  receiveCount : nat
}.

Record Queues : Type := {
  live : list Message;
  dead : list Message
}.

Definition redrive (q : Queue) (m : Message) : bool :=
  match deadLetterQueue q with
  | Some d => Nat.ltb (maxReceiveCount d) (S (receiveCount m))
  | None => false
  end.

Definition receive (m : Message) : Message :=
  {| messageId := messageId m; body := body m; receiveCount := S (receiveCount m) |}.

(** One poll of the event source mapping: up to [batchSize] messages are
    received; those over the limit go to the dead-letter queue, the others
    are delivered to the function as one batch.  When the function succeeds
    the batch is deleted, when it fails the batch becomes visible again.
    The result holds the queues and the batch that was delivered. *)
Definition poll (es : SqsEventSource) (handler_ok : list Message -> bool)
  (qs : Queues) : Queues * list Message :=
  let batch := firstn (batchSize es) (live qs) in
  let waiting := skipn (batchSize es) (live qs) in
  let moved := List.filter (redrive (source es)) batch in
  let delivered :=
    map receive (List.filter (fun m => negb (redrive (source es) m)) batch) in
  if handler_ok delivered
  then ({| live := waiting; dead := dead qs ++ moved |}, delivered)
  else ({| live := waiting ++ delivered; dead := dead qs ++ moved |}, delivered).

(** A run of polls, one outcome of the function per poll, with the
    batches delivered along the way. *)
Fixpoint polls (es : SqsEventSource) (outcomes : list (list Message -> bool))
  (qs : Queues) : Queues * list (list Message) :=
  match outcomes with
  | [] => (qs, [])
  | ok :: rest =>
      let '(qs1, batch) := poll es ok qs in
      let '(qs2, batches) := polls es rest qs1 in
      (qs2, batch :: batches)
  end.

End Sqs.
Import Sqs.

(** ** The table (DynamoDB)

    Items of a table with a string partition key, by the value of the key. *)
Module DynamoDb.

Abbreviation Items := (gmap string json).

(** The key of an item under the key schema of the table; an item without
    the key attribute, or with one of another type, is rejected. *)
Definition key_of (t : Table) (item : list (string * json)) : option string :=
  match type (partitionKey t), get_field (name (partitionKey t)) item with
  | STRING, Some (JStr k) => Some k
  | _, _ => None
  end.

(** [PutItem] creates the item or replaces the one with the same key. *)
Definition put_item (t : Table) (item : list (string * json)) (items : Items)
  : option Items :=
  match key_of t item with
  | Some k => Some (<[k := JObj item]> items)
  | None => None
  end.

(** [GetItem] *)
Definition get_item (k : string) (items : Items) : option json :=
  items !! k.

End DynamoDb.
Import DynamoDb.

(** ** The parameter store (SSM) *)
Module Ssm.

Definition parameter_store (ps : list StringParameter) : gmap string string :=
  list_to_map (map (fun p => (parameterName p, stringValue p)) ps).

(** [GetParameter] *)
Definition get_parameter (n : string) (store : gmap string string) : option string :=
  store !! n.

Definition digit (c : ascii) : option N :=
  let n := N_of_ascii c in
  if (N.leb 48 n && N.leb n 57)%bool then Some (n - 48)%N else None.

Fixpoint parse_digits (s : string) (acc : N) : option N :=
  match s with
  | EmptyString => Some acc
  | String c s' =>
      match digit c with
      | Some d => parse_digits s' (10 * acc + d)%N
      | None => None
      end
  end.

(** The decimal reading of a parameter value. *)
Definition parse_int (s : string) : option N :=
  match s with
  | EmptyString => None
  | _ => parse_digits s 0%N
  end.

End Ssm.
Import Ssm.

(** ** The order store the handlers see *)
Module OrderStore.

(** Modelled from the spec: the handlers [lambda/create-order] and
    [lambda/get-order] are not among the sources.  [put(order)] creates or
    fully replaces the order record and returns its [orderId]; [get(orderId)]
    returns the record or a not-found signal.  Both go to [ordersTable]. *)
Definition put (order : list (string * json)) (items : Items)
  : option (string * Items) :=
  match key_of ordersTable order, put_item ordersTable order items with
  | Some orderId, Some items' => Some (orderId, items')
  | _, _ => None
  end.

Definition get (orderId : string) (items : Items) : option json :=
  get_item orderId items.

End OrderStore.
Import OrderStore.

(** ** Reading an execution *)

(** The states met from [current] by following [nextState]. *)
Fixpoint chain_from (fuel : nat) (sts : list State) (current : string) : list string :=
  match fuel with
  | O => []
  | S fuel' =>
      match find_state current sts with
      | None => []
      | Some s =>
          current ::
          match nextState s with
          | Some n => chain_from fuel' sts n
          | None => []
          end
      end
  end.

(** Following [nextState] from [current] ends within the fuel. *)
Fixpoint ends_within (fuel : nat) (sts : list State) (current : string) : bool :=
  match fuel with
  | O => false
  | S fuel' =>
      match find_state current sts with
      | None => false
      | Some s =>
          match nextState s with
          | Some n => ends_within fuel' sts n
          | None => true
          end
      end
  end.

(** The first state of the history gets [doc]; every later state gets the
    output of the state entered just before it, and nothing else. *)
Fixpoint flows (sm : StateMachine) (env : Environment) (doc : json)
  (h : list Event) : Prop :=
  match h with
  | [] => True
  | e :: rest =>
      input e = doc /\
      match rest with
      | [] => True
      | _ :: _ =>
          exists s out,
            find_state (enteredState e) (states (definitionBody sm)) = Some s /\
            run_state env s doc = Output out /\
            flows sm env out rest
      end
  end.

(** The same machine without an execution timeout. *)
Definition untimed (sm : StateMachine) : StateMachine :=
  {| stateMachineName := stateMachineName sm;
     definitionBody := definitionBody sm;
     timeout := None |}.

(** The steps that ran to their end: every state entered, but for the one in
    flight when the execution failed. *)
Definition completed_steps (x : Execution) : list string :=
  match status x with
  | SUCCEEDED _ => entered_states x
  | FAILED _ => removelast (entered_states x)
  end.

(** The states of an order in the workflow, named by the steps completed. *)
Inductive OrderState : Type :=
| Submitted | Validated | PaymentProcessed | ReceiptGenerated | Notified | Complete.

Definition order_state (completed : list string) : option OrderState :=
  match completed with
  | [] => Some Submitted
  | ["ValidateOrder"] => Some Validated
  | ["ValidateOrder"; "ProcessPayment"] => Some PaymentProcessed
  | ["ValidateOrder"; "ProcessPayment"; "GenerateReceipt"] => Some ReceiptGenerated
  | ["ValidateOrder"; "ProcessPayment"; "GenerateReceipt"; "NotifyCustomer"] =>
      Some Notified
  | ["ValidateOrder"; "ProcessPayment"; "GenerateReceipt"; "NotifyCustomer";
     "OrderComplete"] => Some Complete
  | _ => None
  end.

Definition terminal (s : OrderState) : bool :=
  match s with
  | Complete => true
  | _ => false
  end.

(** The state an execution was in when it stopped. *)
Definition state_at_stop (x : Execution) : option OrderState :=
  order_state (completed_steps x).

Abbreviation workflow_states := (states (definitionBody OrderWorkflow)).

Abbreviation validated := (JObj [("validated", JBool true)]).
Abbreviation paid := (JObj [("paymentStatus", JStr "SUCCESS")]).

(** [process.env[k]] of a function. *)
Definition get_field_env (k : string) (env : list (string * Value)) : option Value :=
  snd <$> List.find (fun kv => String.eqb (fst kv) k) env.

(** Every live message called [id] has been received as often as the
    redrive policy of order-queue allows. *)
Definition exhausted (id : string) (qs : Queues) : Prop :=
  forall m, In m (live qs) -> messageId m = id -> 3 <= receiveCount m.

(** The state of [OrderWorkflow] called [n], run on [doc]. *)
Definition run_named (env : Environment) (n : string) (doc : json)
  : option StepResult :=
  (fun s => run_state env s doc) <$>
  find_state n (states (definitionBody OrderWorkflow)).

(** The function invoked by the task state of [OrderWorkflow] called [n]. *)
Definition task_function (n : string) : option Function :=
  match find_state n (states (definitionBody OrderWorkflow)) with
  | Some s =>
      match kind s with
      | LambdaInvoke props => Some (lambdaFunction props)
      | _ => None
      end
  | None => None
  end.

(** What a task makes of the outcome of its invocation once [$.Payload] is
    selected. *)
Definition payload_result (r : InvokeResult) : StepResult :=
  match r with
  | Returned payload => Output payload
  | Thrown errorType => Error errorType
  end.

(** ** Sample orders and environments *)

(** The order of the README's example run. *)
Definition alice_order : list (string * json) :=
  [("orderId", JStr "dbdbbfe3-a4d8-408d-ad55-78b1de2e3873");
   ("customerName", JStr "Alice");
   ("items", JArr [JStr "widget"; JStr "gadget"]);
   ("total", JNum (4999 # 100));
   ("createdAt", JStr "2026-02-08T16:41:20.649Z")].

Definition order_id_of (doc : json) : json :=
  match get_path ["orderId"] doc with
  | Some v => v
  | None => JNull
  end.

(** Handlers that answer as in the README's example run: the receipt
    function returns a reference to the receipt, the processing function the
    summary [{ processed, results }]. *)
Definition sample_handlers (f : string) (payload : json) : InvokeResult :=
  if String.eqb f "GenerateReceiptFunction" then
    Returned (JObj [("orderId", order_id_of payload);
                    ("receiptKey", JStr "receipts/order.json")])
  else if String.eqb f "ProcessOrderFunction" then
    Returned (JObj [("processed", JNum (1 # 1));
                    ("results",
                     JArr [JObj [("orderId", order_id_of payload);
                                 ("status", JStr "PROCESSED")]])])
  else Thrown "Lambda.ResourceNotFoundException".

Definition sample_env : Environment :=
  {| invoke := sample_handlers; latency := fun _ _ => 1 |}.

(** The sample handlers, with the service held up in state [n] for longer
    than five minutes. *)
Definition stalled_in (n : string) : Environment :=
  {| invoke := sample_handlers;
     latency := fun st _ => if String.eqb st n then 301 else 0 |}.

(** A message that the function fails to process, poll after poll. *)
Definition fresh_message : Message :=
  {| messageId := "m-1"; body := JObj alice_order; receiveCount := 0 |}.

Definition always_fails (batch : list Message) : bool := false.

Definition after_three_failures : Queues :=
  fst (polls orderEventSource [always_fails; always_fails; always_fails]
         {| live := [fresh_message]; dead := [] |}).

Definition thrice_failed : Message :=
  {| messageId := "m-1"; body := JObj alice_order; receiveCount := 3 |}.

(** Modelled from the spec: the validation rules live in the handlers, which
    are not among the sources.  By the data model an order has a customer
    name, a sequence of line items, at most [max-items-per-order] of them,
    and a total that is not negative. *)
Definition order_valid (max_items : N) (order : json) : bool :=
  match order with
  | JObj members =>
      match get_field "customerName" members,
            get_field "items" members,
            get_field "total" members with
      | Some (JStr _), Some (JArr items), Some (JNum total) =>
          (N.leb (N.of_nat (length items)) max_items && Qle_bool 0 total)%bool
      | _, _, _ => false
      end
  | _ => false
  end.

(** An order with a negative total and no customer. *)
Definition bad_order : json :=
  JObj [("orderId", JStr "o-13");
        ("customerName", JStr "");
        ("items", JArr []);
        ("total", JNum (-(5 # 1)))].

(** ** The rest of the stack: bucket, HTTP API *)

(** [receiptsBucket.bucketName], for the account and region of the stack. *)
Definition receiptsBucketName (account region : string) : string :=
  "order-receipts-" ++ account ++ "-" ++ region.

(** The character [c] does not occur in [s]. *)
Fixpoint lacks (c : ascii) (s : string) : bool :=
  match s with
  | EmptyString => true
  | String c' s' => negb (Ascii.eqb c' c) && lacks c s'
  end.

Module Apigwv2.

Inductive HttpMethod : Type :=
| GET | POST | PUT | PATCH | DELETE | HEAD | OPTIONS | ANY.

Definition method_eqb (a b : HttpMethod) : bool :=
  match a, b with
  | GET, GET | POST, POST | PUT, PUT | PATCH, PATCH | DELETE, DELETE
  | HEAD, HEAD | OPTIONS, OPTIONS | ANY, ANY => true
  | _, _ => false
  end.

(** One [addRoutes] call. *)
Record Route : Type := {
  path : string;
  methods : list HttpMethod;
  integration : Function
}.

(** The segments of a path, between its slashes. *)
Fixpoint split_on (sep : ascii) (s : string) : list string :=
  match s with
  | EmptyString => [EmptyString]
  | String c s' =>
      if Ascii.eqb c sep then EmptyString :: split_on sep s'
      else
        match split_on sep s' with
        | [] => [String c EmptyString]
        | seg :: rest => String c seg :: rest
        end
  end.

Fixpoint join_with (sep : ascii) (segments : list string) : string :=
  match segments with
  | [] => EmptyString
  | [seg] => seg
  | seg :: rest => seg ++ String sep (join_with sep rest)
  end.

(** The text before a closing brace that ends the string. *)
Fixpoint before_brace (s : string) : option string :=
  match s with
  | EmptyString => None
  | String c s' =>
      if (Ascii.eqb c "}"%char && String.eqb s' EmptyString)%bool then Some EmptyString
      else String c <$> before_brace s'
  end.

(** The name of a path variable such as [{id}]. *)
Definition path_variable (segment : string) : option string :=
  match segment with
  | String c s' => if Ascii.eqb c "{"%char then before_brace s' else None
  | EmptyString => None
  end.

(** A route path against the segments of a request: a literal segment
    matches itself, a path variable matches one segment that is not empty
    and binds it. *)
Fixpoint match_segments (pattern request : list string)
  : option (list (string * string)) :=
  match pattern, request with
  | [], [] => Some []
  | p :: ps, r :: rs =>
      match path_variable p with
      | Some v =>
          if String.eqb r EmptyString then None
          else cons (v, r) <$> match_segments ps rs
      | None => if String.eqb p r then match_segments ps rs else None
      end
  | _, _ => None
  end.

Definition match_route (m : HttpMethod) (request : string) (r : Route)
  : option (Function * list (string * string)) :=
  if existsb (fun m' => method_eqb m' m || method_eqb m' ANY) (methods r)
  then pair (integration r) <$>
       match_segments (split_on "/"%char (path r)) (split_on "/"%char request)
  else None.

(** The integration a request goes to, with its path parameters; [None] is
    the 404 of the API. *)
Fixpoint route_request (routes : list Route) (m : HttpMethod) (request : string)
  : option (Function * list (string * string)) :=
  match routes with
  | [] => None
  | r :: rest =>
      match match_route m request r with
      | Some hit => Some hit
      | None => route_request rest m request
      end
  end.

End Apigwv2.
Import Apigwv2.

(** The routes of [httpApi]. *)
Definition routes : list Route :=
  [ {| path := "/orders"; methods := [POST]; integration := createOrderFn |};
    {| path := "/orders/{id}"; methods := [GET]; integration := getOrderFn |} ].

(** ** More on the queue and the table *)

(** The messages called [id], and the messages order-queue still delivers. *)
Abbreviation called id := (fun m : Message => String.eqb (messageId m) id).
Abbreviation deliverable := (fun m : Message => negb (redrive orderQueue m)).

(** What is left of the receptions the redrive policy of order-queue allows
    to the live messages called [id]. *)
Definition receptions_left (id : string) (ms : list Message) : nat :=
  list_sum (map (fun m => if String.eqb (messageId m) id
                          then 3 - receiveCount m else 0) ms).

(** How often a message called [id] was delivered in a run of polls. *)
Definition deliveries (id : string) (batches : list (list Message)) : nat :=
  length (List.filter (fun m => String.eqb (messageId m) id) (concat batches)).

(** Orders put one after the other; an order the table rejects changes
    nothing. *)
Definition put_all (orders : list (list (string * json))) (items : Items) : Items :=
  fold_left (fun acc order =>
               match put_item ordersTable order acc with
               | Some acc' => acc'
               | None => acc
               end) orders items.

(** The last order in the list stored under [k]. *)
Definition last_put (k : string) (orders : list (list (string * json)))
  : option (list (string * json)) :=
  List.find (fun order =>
               match get_field "orderId" order with
               | Some (JStr k') => String.eqb k' k
               | _ => false
               end) (rev orders).

(** An input that is a JSON object. *)
Definition is_object (doc : json) : bool :=
  match doc with
  | JObj _ => true
  | _ => false
  end.

(** The payload GenerateReceiptFunction gets for an order: the order with the
    results of the two Pass states. *)
Definition receipt_request (members : list (string * json)) : json :=
  JObj (set_field "payment" paid (set_field "validation" validated members)).


(** ** Lemmas on the interpreter *)

Section Interpreter.

Variable sm : StateMachine.
Variable env : Environment.

Local Abbreviation sts := (states (definitionBody sm)).

Lemma exec_unfold fuel current doc clock :
  exec (S fuel) sm env current doc clock =
  match find_state current sts with
  | None => None
  | Some s =>
      let e := {| enteredState := current; input := doc; enteredAt := clock |} in
      let finish := clock + latency env current doc in
      if timed_out (timeout sm) finish then
        Some {| history := [e];
                status := FAILED "States.Timeout";
                stoppedAt := deadline (timeout sm) finish |}
      else
        match run_state env s doc with
        | Error error =>
            Some {| history := [e]; status := FAILED error; stoppedAt := finish |}
        | Output out =>
            match nextState s with
            | None =>
                Some {| history := [e]; status := SUCCEEDED out; stoppedAt := finish |}
            | Some n => entered e <$> exec fuel sm env n out finish
            end
        end
  end.
Proof. reflexivity. Qed.

(** Case analysis on one step of the interpreter. *)
Ltac exec_cases H :=
  rewrite exec_unfold in H; cbv zeta in H;
  destruct (find_state _ sts) as [s|] eqn:Hfind; [|discriminate H];
  destruct (timed_out _ _) eqn:Htime;
  [|destruct (run_state env s _) as [out|err] eqn:Hrun;
    [destruct (nextState s) as [n|] eqn:Hnext|]].

(** An execution exists as soon as the chain of states ends within the fuel. *)
Lemma exec_total fuel : forall current doc clock,
  ends_within fuel sts current = true ->
  exists x, exec fuel sm env current doc clock = Some x.
Proof.
  induction fuel as [|fuel IH]; intros current doc clock Hend; [discriminate|].
  rewrite exec_unfold. cbn [ends_within] in Hend.
  destruct (find_state current sts) as [s|]; [|discriminate]. cbv zeta.
  destruct (timed_out _ _); [eauto|].
  destruct (run_state env s doc) as [out|err]; [|eauto].
  destruct (nextState s) as [n|]; [|eauto].
  destruct (IH n out (clock + latency env current doc) Hend) as [x ->].
  cbn. eauto.
Qed.

(** The states entered are an initial part of the chain, and all of it when
    the execution succeeds. *)
Lemma exec_entered fuel : forall current doc clock x,
  exec fuel sm env current doc clock = Some x ->
  entered_states x `prefix_of` chain_from fuel sts current /\
  (forall out, status x = SUCCEEDED out ->
     entered_states x = chain_from fuel sts current).
Proof.
  induction fuel as [|fuel IH]; intros current doc clock x H; [discriminate|].
  cbn [chain_from].
  exec_cases H.
  - injection H as <-. cbn. split; [|discriminate].
    apply prefix_cons, prefix_nil.
  - destruct (exec fuel sm env n out _) as [y|] eqn:Hrest; [|discriminate].
    injection H as <-. destruct (IH _ _ _ _ Hrest) as [Hp Hs].
    unfold entered_states in *. cbn. split.
    + by apply prefix_cons.
    + intros o Ho. f_equal. by apply (Hs o).
  - injection H as <-. cbn. split; [done|]. done.
  - injection H as <-. cbn. split; [|discriminate].
    apply prefix_cons, prefix_nil.
Qed.

(** Data flows forward along the history. *)
Lemma exec_flows fuel : forall current doc clock x,
  exec fuel sm env current doc clock = Some x ->
  flows sm env doc (history x).
Proof.
  induction fuel as [|fuel IH]; intros current doc clock x H; [discriminate|].
  exec_cases H; try (injection H as <-; cbn; done).
  destruct (exec fuel sm env n out _) as [y|] eqn:Hrest; [|discriminate].
  injection H as <-. pose proof (IH _ _ _ _ Hrest) as Hy.
  cbn. split; [done|].
  destruct (history y) as [|e' h'] eqn:Hh.
  - destruct fuel; [discriminate|]. clear -Hrest Hh.
    rewrite exec_unfold in Hrest. cbv zeta in Hrest.
    destruct (find_state n sts); [|discriminate].
    destruct (timed_out _ _); [injection Hrest as <-; discriminate|].
    destruct (run_state env _ out); [|injection Hrest as <-; discriminate].
    destruct (nextState _); [|injection Hrest as <-; discriminate].
    destruct (exec fuel sm env _ _ _); [|discriminate].
    injection Hrest as <-. discriminate.
  - exists s, out. done.
Qed.

(** The history is never empty and starts with the state asked for. *)
Lemma exec_first fuel current doc clock x :
  exec fuel sm env current doc clock = Some x ->
  exists rest,
    history x =
    {| enteredState := current; input := doc; enteredAt := clock |} :: rest.
Proof.
  destruct fuel; [discriminate|]. intros H.
  exec_cases H; try (injection H as <-; cbn; eauto).
  destruct (exec fuel sm env n out _) as [y|]; [|discriminate].
  injection H as <-. cbn. eauto.
Qed.

End Interpreter.

(** *** The execution timeout *)

Lemma timed_out_spec d t : timed_out (Some d) t = true <-> toSeconds d < t.
Proof. unfold timed_out. apply Nat.ltb_lt. Qed.

Lemma timed_out_false d t : timed_out (Some d) t = false <-> t <= toSeconds d.
Proof. unfold timed_out. rewrite Nat.ltb_ge. done. Qed.

(** Time does not run backwards. *)
Lemma exec_untimed_clock sm env fuel : forall current doc clock y,
  exec fuel (untimed sm) env current doc clock = Some y ->
  clock <= stoppedAt y.
Proof.
  induction fuel as [|fuel IH]; intros current doc clock y H; [discriminate|].
  rewrite exec_unfold in H. cbv zeta in H.
  destruct (find_state _ _) as [s|]; [|discriminate].
  cbn [timeout untimed timed_out] in H.
  destruct (run_state env s doc) as [out|err].
  - destruct (nextState s) as [n|].
    + destruct (exec fuel (untimed sm) env n out _) as [z|] eqn:Hrest; [|discriminate].
      injection H as <-. cbn. apply IH in Hrest. lia.
    + injection H as <-. cbn. lia.
  - injection H as <-. cbn. lia.
Qed.

(** An execution under a timeout of [d], against the same execution left to
    run: it never stops after the deadline; it is the free execution when
    that one stops in time, and otherwise it is cut at the first state that
    would end late and fails with [States.Timeout] at the deadline. *)
Lemma exec_timeout sm env d fuel :
  timeout sm = Some d ->
  forall current doc clock x y,
  clock <= toSeconds d ->
  exec fuel sm env current doc clock = Some x ->
  exec fuel (untimed sm) env current doc clock = Some y ->
  stoppedAt x <= toSeconds d /\
  (stoppedAt y <= toSeconds d -> x = y) /\
  (toSeconds d < stoppedAt y ->
     status x = FAILED "States.Timeout" /\ stoppedAt x = toSeconds d /\
     history x `prefix_of` history y).
Proof.
  intros Hd.
  induction fuel as [|fuel IH]; intros current doc clock x y Hclock Hx Hy;
    [discriminate|].
  rewrite exec_unfold in Hx, Hy. cbv zeta in Hx, Hy.
  change (states (definitionBody (untimed sm))) with (states (definitionBody sm)) in Hy.
  destruct (find_state _ _) as [s|]; [|discriminate].
  cbn [timeout untimed timed_out] in Hy. rewrite Hd in Hx.
  destruct (timed_out (Some d) _) eqn:Ht.
  - (* the state in flight would end after the deadline *)
    apply timed_out_spec in Ht. injection Hx as <-. cbn [stoppedAt status history deadline].
    assert (clock + latency env current doc <= stoppedAt y) as Hlate.
    { destruct (run_state env s doc) as [out|err].
      - destruct (nextState s) as [n|].
        + destruct (exec fuel (untimed sm) env n out _) as [z|] eqn:Hrest; [|discriminate].
          injection Hy as <-. cbn. by apply exec_untimed_clock in Hrest.
        + injection Hy as <-. cbn. lia.
      - injection Hy as <-. cbn. lia. }
    split; [lia|]. split; [lia|]. intros _. split; [done|]. split; [done|].
    destruct (run_state env s doc) as [out|err].
    + destruct (nextState s) as [n|].
      * destruct (exec fuel (untimed sm) env n out _) as [z|]; [|discriminate].
        injection Hy as <-. cbn. apply prefix_cons, prefix_nil.
      * injection Hy as <-. done.
    + injection Hy as <-. done.
  - apply timed_out_false in Ht.
    destruct (run_state env s doc) as [out|err].
    + destruct (nextState s) as [n|].
      * destruct (exec fuel sm env n out _) as [x'|] eqn:Hx'; [|discriminate].
        destruct (exec fuel (untimed sm) env n out _) as [y'|] eqn:Hy'; [|discriminate].
        injection Hx as <-. injection Hy as <-.
        destruct (IH _ _ _ _ _ Ht Hx' Hy') as (H1 & H2 & H3). cbn.
        split; [done|]. split.
        -- intros Hle. by rewrite (H2 Hle).
        -- intros Hlt. destruct (H3 Hlt) as (? & ? & ?).
           split; [done|]. split; [done|]. by apply prefix_cons.
      * injection Hx as <-. injection Hy as <-. cbn. split; [done|]. split; [done|].
        intros. lia.
    + injection Hx as <-. injection Hy as <-. cbn. split; [done|]. split; [done|].
      intros. lia.
Qed.

(** ** Lemmas on JSON objects *)

Lemma get_set_field_eq k v members :
  get_field k (set_field k v members) = Some v.
Proof.
  induction members as [|[k' v'] rest IH]; cbn.
  - by rewrite String.eqb_refl.
  - destruct (String.eqb k k') eqn:E; cbn.
    + by rewrite String.eqb_refl.
    + by rewrite E.
Qed.

Lemma get_set_field_ne k k' v members :
  k <> k' -> get_field k' (set_field k v members) = get_field k' members.
Proof.
  intros Hne. induction members as [|[k0 v0] rest IH]; cbn.
  - destruct (String.eqb k' k) eqn:E; [|done].
    apply String.eqb_eq in E. congruence.
  - destruct (String.eqb k k0) eqn:E; cbn.
    + apply String.eqb_eq in E. subst k0.
      destruct (String.eqb k' k) eqn:E'; [|done].
      apply String.eqb_eq in E'. congruence.
    + destruct (String.eqb k' k0); [done|apply IH].
Qed.

(** ** Lemmas on [OrderWorkflow] *)

Lemma start_unfold env doc :
  start_execution OrderWorkflow env doc =
  exec 5 OrderWorkflow env "ValidateOrder" doc 0.
Proof. reflexivity. Qed.

Lemma workflow_chain :
  chain_from 5 workflow_states "ValidateOrder" =
  ["ValidateOrder"; "ProcessPayment"; "GenerateReceipt"; "NotifyCustomer";
   "OrderComplete"].
Proof. reflexivity. Qed.

Lemma workflow_ends : ends_within 5 workflow_states "ValidateOrder" = true.
Proof. reflexivity. Qed.

Lemma find_validate :
  find_state "ValidateOrder" workflow_states =
  Some (addNext processPayment validateOrder).
Proof. reflexivity. Qed.

Lemma find_payment :
  find_state "ProcessPayment" workflow_states =
  Some (addNext generateReceipt processPayment).
Proof. reflexivity. Qed.

Lemma run_validate env members :
  run_state env (addNext processPayment validateOrder) (JObj members) =
  Output (JObj (set_field "validation" validated members)).
Proof. reflexivity. Qed.

Lemma run_payment env members :
  run_state env (addNext generateReceipt processPayment) (JObj members) =
  Output (JObj (set_field "payment" paid members)).
Proof. reflexivity. Qed.

Lemma run_named_validate env members :
  run_named env "ValidateOrder" (JObj members) =
  Some (Output (JObj (set_field "validation" validated members))).
Proof. reflexivity. Qed.

Lemma run_named_payment env members :
  run_named env "ProcessPayment" (JObj members) =
  Some (Output (JObj (set_field "payment" paid members))).
Proof. reflexivity. Qed.

Lemma run_named_receipt env doc :
  run_named env "GenerateReceipt" doc =
  Some (payload_result (invoke env "GenerateReceiptFunction" doc)).
Proof.
  unfold run_named. cbn. unfold run_state. cbn.
  by destruct (invoke env _ doc).
Qed.

Lemma run_named_notify env doc :
  run_named env "NotifyCustomer" doc =
  Some (payload_result (invoke env "ProcessOrderFunction" doc)).
Proof.
  unfold run_named. cbn. unfold run_state. cbn.
  by destruct (invoke env _ doc).
Qed.

Lemma workflow_total sm env doc :
  definitionBody sm = definition ->
  exists x, start_execution sm env doc = Some x.
Proof.
  intros Hd. unfold start_execution. rewrite Hd.
  apply exec_total. rewrite Hd. exact workflow_ends.
Qed.

(** ** Sample runs *)

(** The README's run: five states, one second each, and the summary of the
    processing function as the output. *)
Example readme_run :
  exists x,
    start_execution OrderWorkflow sample_env (JObj alice_order) = Some x /\
    entered_states x =
      ["ValidateOrder"; "ProcessPayment"; "GenerateReceipt"; "NotifyCustomer";
       "OrderComplete"] /\
    stoppedAt x = 5 /\
    status x =
      SUCCEEDED
        (JObj [("processed", JNum (1 # 1));
               ("results",
                JArr [JObj [("orderId", JStr "dbdbbfe3-a4d8-408d-ad55-78b1de2e3873");
                            ("status", JStr "PROCESSED")]])]).
Proof. eexists. vm_compute. do 3 (split; [reflexivity|]). reflexivity. Qed.

(** The receipt function held up: the execution is cut at 300 seconds with
    GenerateReceipt in flight, and NotifyCustomer is never entered. *)
Example stalled_receipt_run :
  exists x,
    start_execution OrderWorkflow (stalled_in "GenerateReceipt") (JObj alice_order)
      = Some x /\
    entered_states x = ["ValidateOrder"; "ProcessPayment"; "GenerateReceipt"] /\
    status x = FAILED "States.Timeout" /\
    stoppedAt x = 300 /\
    (stoppedAt <$> start_execution (untimed OrderWorkflow)
                     (stalled_in "GenerateReceipt") (JObj alice_order)) = Some 301.
Proof. eexists. vm_compute. do 4 (split; [reflexivity|]). reflexivity. Qed.

(** An input that is not an object: [$.validation] cannot be placed in it. *)
Example not_an_object_run :
  exists x,
    start_execution OrderWorkflow sample_env (JStr "order") = Some x /\
    entered_states x = ["ValidateOrder"] /\
    status x = FAILED "States.ResultPathMatchFailure".
Proof. eexists. vm_compute. do 2 (split; [reflexivity|]). reflexivity. Qed.

(** A receipt function that throws fails the execution with its error. *)
Example failing_receipt_run :
  exists x,
    start_execution OrderWorkflow
      {| invoke := fun _ _ => Thrown "Error"; latency := fun _ _ => 1 |}
      (JObj alice_order) = Some x /\
    entered_states x = ["ValidateOrder"; "ProcessPayment"; "GenerateReceipt"] /\
    status x = FAILED "Error".
Proof. eexists. vm_compute. do 2 (split; [reflexivity|]). reflexivity. Qed.

(** Three failed deliveries leave the message live with a receive count of
    three; the fourth poll delivers nothing and moves it to the dead-letter
    queue. *)
Example three_failures_run :
  after_three_failures = {| live := [thrice_failed]; dead := [] |} /\
  poll orderEventSource always_fails after_three_failures =
    ({| live := []; dead := [thrice_failed] |}, []).
Proof. split; reflexivity. Qed.

(** ** The workflow *)

(** C1: in every execution of OrderWorkflow the states are entered in the
    declared order ValidateOrder, ProcessPayment, GenerateReceipt,
    NotifyCustomer, OrderComplete: the states entered are an initial part of
    that list (none skipped, none reordered) and all of it when the
    execution succeeds; the first state sees the input of the execution and
    every later state sees the output of the state just before it. *)
Theorem C1_steps_in_declared_order (env : Environment) (doc : json) :
  exists x,
    start_execution OrderWorkflow env doc = Some x /\
    entered_states x `prefix_of`
      ["ValidateOrder"; "ProcessPayment"; "GenerateReceipt"; "NotifyCustomer";
       "OrderComplete"] /\
    (forall out, status x = SUCCEEDED out ->
       entered_states x =
       ["ValidateOrder"; "ProcessPayment"; "GenerateReceipt"; "NotifyCustomer";
        "OrderComplete"]) /\
    flows OrderWorkflow env doc (history x).
Proof.
  destruct (workflow_total OrderWorkflow env doc eq_refl) as [x Hx].
  exists x. split; [done|].
  pose proof Hx as Hrun. rewrite start_unfold in Hrun.
  destruct (exec_entered _ _ _ _ _ _ _ Hrun) as [Hp Hs].
  rewrite workflow_chain in Hp, Hs.
  split; [done|]. split; [done|].
  by apply exec_flows in Hrun.
Qed.

(** C3: from every state of an order that is not terminal (Submitted,
    Validated, PaymentProcessed, ReceiptGenerated, Notified) some execution
    goes to the failed end: there is an execution that completed exactly the
    steps of that state and then failed. *)
Theorem C3_failed_reachable (s : OrderState) :
  terminal s = false ->
  exists env doc x error,
    start_execution OrderWorkflow env doc = Some x /\
    status x = FAILED error /\
    state_at_stop x = Some s.
Proof.
  intros Hs.
  destruct s; [| | | | |discriminate Hs].
  - exists (stalled_in "ValidateOrder"), (JObj alice_order).
    eexists; eexists. vm_compute. done.
  - exists (stalled_in "ProcessPayment"), (JObj alice_order).
    eexists; eexists. vm_compute. done.
  - exists (stalled_in "GenerateReceipt"), (JObj alice_order).
    eexists; eexists. vm_compute. done.
  - exists (stalled_in "NotifyCustomer"), (JObj alice_order).
    eexists; eexists. vm_compute. done.
  - exists (stalled_in "OrderComplete"), (JObj alice_order).
    eexists; eexists. vm_compute. done.
Qed.

Lemma C3_failed_reachable_witness :
  terminal Validated = false /\
  exists env doc x error,
    start_execution OrderWorkflow env doc = Some x /\
    status x = FAILED error /\
    state_at_stop x = Some Validated.
Proof.
  split; [reflexivity | apply (C3_failed_reachable Validated); reflexivity].
Defined.

(** C5: the timeout of OrderWorkflow is five minutes, 300 seconds.  No
    execution runs past it; an execution that would stop within the bound
    is not touched; an execution that would run longer is cut while the
    state then in flight, whichever it is, is running, and fails with
    States.Timeout at the deadline. *)
Theorem C5_execution_timeout (env : Environment) (doc : json) :
  timeout OrderWorkflow = Some (Duration_minutes 5) /\
  toSeconds (Duration_minutes 5) = 300 /\
  exists x y,
    start_execution OrderWorkflow env doc = Some x /\
    start_execution (untimed OrderWorkflow) env doc = Some y /\
    stoppedAt x <= 300 /\
    (stoppedAt y <= 300 -> x = y) /\
    (300 < stoppedAt y ->
       status x = FAILED "States.Timeout" /\ stoppedAt x = 300 /\
       history x `prefix_of` history y).
Proof.
  split; [reflexivity|]. split; [reflexivity|].
  destruct (workflow_total OrderWorkflow env doc eq_refl) as [x Hx].
  destruct (workflow_total (untimed OrderWorkflow) env doc eq_refl) as [y Hy].
  exists x, y. split; [done|]. split; [done|].
  rewrite start_unfold in Hx.
  change (start_execution (untimed OrderWorkflow) env doc)
    with (exec 5 (untimed OrderWorkflow) env "ValidateOrder" doc 0) in Hy.
  assert (0 <= toSeconds (Duration_minutes 5)) as H0 by lia.
  pose proof (exec_timeout OrderWorkflow env (Duration_minutes 5) 5 eq_refl
                _ _ _ _ _ H0 Hx Hy) as H.
  change (toSeconds (Duration_minutes 5)) with 300 in H.
  exact H.
Qed.

(** C2 (as amended): the two Pass states merge their fixed result into the
    document under their own key, validation and payment, and leave every
    other member as it was; the two task states do not merge: the output of
    GenerateReceipt and of NotifyCustomer is the payload the function
    returned, alone. *)
Theorem C2_pass_merges_task_replaces
  (env : Environment) (members : list (string * json)) (doc : json) :
  (exists members',
     run_named env "ValidateOrder" (JObj members) = Some (Output (JObj members')) /\
     get_field "validation" members' = Some validated /\
     forall k, k <> "validation" -> get_field k members' = get_field k members) /\
  (exists members',
     run_named env "ProcessPayment" (JObj members) = Some (Output (JObj members')) /\
     get_field "payment" members' = Some paid /\
     forall k, k <> "payment" -> get_field k members' = get_field k members) /\
  run_named env "GenerateReceipt" doc =
    Some (payload_result (invoke env "GenerateReceiptFunction" doc)) /\
  run_named env "NotifyCustomer" doc =
    Some (payload_result (invoke env "ProcessOrderFunction" doc)).
Proof.
  split; [|split; [|split]].
  - eexists. split; [apply run_named_validate|].
    split; [apply get_set_field_eq|].
    intros k Hk. by apply get_set_field_ne.
  - eexists. split; [apply run_named_payment|].
    split; [apply get_set_field_eq|].
    intros k Hk. by apply get_set_field_ne.
  - apply run_named_receipt.
  - apply run_named_notify.
Qed.

(** C2, counterexample: in the README's run the document entering
    GenerateReceipt holds the keys validation and payment written by the two
    steps before it, the document leaving it holds neither, and the output
    of the execution holds neither. *)
Lemma C2_counterexample :
  exists x e2 e3 out,
    start_execution OrderWorkflow sample_env (JObj alice_order) = Some x /\
    history x !! 2 = Some e2 /\ enteredState e2 = "GenerateReceipt" /\
    get_path ["validation"] (input e2) = Some validated /\
    get_path ["payment"] (input e2) = Some paid /\
    history x !! 3 = Some e3 /\ enteredState e3 = "NotifyCustomer" /\
    get_path ["validation"] (input e3) = None /\
    get_path ["payment"] (input e3) = None /\
    status x = SUCCEEDED out /\
    get_path ["validation"] out = None /\
    get_path ["payment"] out = None.
Proof.
  do 4 eexists. vm_compute. repeat (split; [reflexivity|]). reflexivity.
Qed.

(** C4 (as amended): ValidateOrder rejects no order.  For every order
    document it succeeds with the fixed result under validation; an
    execution that stops in ValidateOrder was cut by the timeout, and
    otherwise ProcessPayment is entered next with the validated document. *)
Theorem C4_validate_accepts_every_order
  (env : Environment) (members : list (string * json)) :
  exists x,
    start_execution OrderWorkflow env (JObj members) = Some x /\
    run_named env "ValidateOrder" (JObj members) =
      Some (Output (JObj (set_field "validation" validated members))) /\
    (entered_states x = ["ValidateOrder"] -> status x = FAILED "States.Timeout") /\
    (latency env "ValidateOrder" (JObj members) <= 300 ->
     exists first e rest,
       history x = first :: e :: rest /\
       enteredState e = "ProcessPayment" /\
       input e = JObj (set_field "validation" validated members)).
Proof.
  destruct (workflow_total OrderWorkflow env (JObj members) eq_refl) as [x Hx].
  exists x. split; [done|]. split; [apply run_named_validate|].
  rewrite start_unfold, exec_unfold, find_validate in Hx. cbv zeta in Hx.
  destruct (timed_out _ _) eqn:Ht.
  - injection Hx as <-. split; [done|].
    apply timed_out_spec in Ht. change (toSeconds (Duration_minutes 5)) with 300 in Ht.
    intros Hle. lia.
  - rewrite run_validate in Hx.
    cbn [nextState addNext stateName processPayment] in Hx.
    destruct (exec 4 OrderWorkflow env "ProcessPayment" _ _) as [y|] eqn:Hy;
      [|discriminate].
    injection Hx as <-.
    destruct (exec_first _ _ _ _ _ _ _ Hy) as [rest Hrest].
    unfold entered_states. cbn. rewrite Hrest. split; [discriminate|].
    intros _. eexists _, _, rest. split; [reflexivity|]. done.
Qed.

(** C4, counterexample: an order that is not valid (no customer, a negative
    total) is not failed: ValidateOrder marks it validated, the payment,
    receipt and notification steps all execute and the execution succeeds. *)
Lemma C4_counterexample :
  order_valid 100 bad_order = false /\
  run_named sample_env "ValidateOrder" bad_order <> Some (Error "validation") /\
  exists x out,
    start_execution OrderWorkflow sample_env bad_order = Some x /\
    entered_states x =
      ["ValidateOrder"; "ProcessPayment"; "GenerateReceipt"; "NotifyCustomer";
       "OrderComplete"] /\
    status x = SUCCEEDED out /\
    status x <> FAILED "validation".
Proof.
  split; [reflexivity|]. split; [discriminate|].
  do 2 eexists. vm_compute. do 3 (split; [reflexivity|]). discriminate.
Qed.

(** C9: for every order document, whatever the environment, ValidateOrder
    returns the document with the fixed object [{ validated: true }] under
    validation and ProcessPayment returns it with the fixed object
    [{ paymentStatus: 'SUCCESS' }] under payment; neither state returns an
    error. *)
Theorem C9_pass_steps_constant (env : Environment) (members : list (string * json)) :
  (run_named env "ValidateOrder" (JObj members) =
     Some (Output (JObj (set_field "validation" validated members))) /\
   get_path ["validation"] (JObj (set_field "validation" validated members)) =
     Some (JObj [("validated", JBool true)])) /\
  (run_named env "ProcessPayment" (JObj members) =
     Some (Output (JObj (set_field "payment" paid members))) /\
   get_path ["payment"] (JObj (set_field "payment" paid members)) =
     Some (JObj [("paymentStatus", JStr "SUCCESS")])) /\
  (forall error, run_named env "ValidateOrder" (JObj members) <> Some (Error error)) /\
  (forall error, run_named env "ProcessPayment" (JObj members) <> Some (Error error)).
Proof.
  rewrite run_named_validate, run_named_payment. cbn [get_path].
  rewrite !get_set_field_eq.
  repeat split; discriminate.
Qed.

(** C10: the function the queue's event source delivers to and the function
    the NotifyCustomer state invokes are one function, ProcessOrderFunction;
    the workflow invokes no function but GenerateReceiptFunction and that
    one, so what NotifyCustomer returns is what ProcessOrderFunction
    returns. *)
Theorem C10_notify_is_queue_consumer (env : Environment) (doc : json) :
  map (fun es => (source es, target es)) eventSources =
    [(orderQueue, processOrderFn)] /\
  task_function "NotifyCustomer" = Some processOrderFn /\
  functionName processOrderFn = "ProcessOrderFunction" /\
  omap task_function (map stateName workflow_states) =
    [generateReceiptFn; processOrderFn] /\
  run_named env "NotifyCustomer" doc =
    Some (payload_result (invoke env (functionName processOrderFn) doc)).
Proof.
  do 4 (split; [reflexivity|]). apply run_named_notify.
Qed.

(** ** The queue *)

Lemma in_firstn {A} n (l : list A) x : In x (firstn n l) -> In x l.
Proof. intros H. rewrite <- (firstn_skipn n l). apply in_app_iff. by left. Qed.

Lemma in_skipn {A} n (l : list A) x : In x (skipn n l) -> In x l.
Proof. intros H. rewrite <- (firstn_skipn n l). apply in_app_iff. by right. Qed.

Section Redrive.

Variable id : string.

Local Abbreviation exhausted := (exhausted id).

Lemma redrive_order_queue m :
  redrive orderQueue m = true <-> 3 <= receiveCount m.
Proof.
  unfold redrive. cbn [deadLetterQueue orderQueue maxReceiveCount].
  rewrite Nat.ltb_lt. lia.
Qed.

Lemma poll_delivered ok qs m' :
  In m' (snd (poll orderEventSource ok qs)) ->
  exists m, In m (live qs) /\ m' = receive m /\ receiveCount m < 3.
Proof.
  unfold poll. cbv zeta. destruct (ok _); cbn [snd]; intros Hin.
  all: apply in_map_iff in Hin as (m & <- & Hm);
    apply filter_In in Hm as [Hm Hr]; exists m;
    (split; [eapply in_firstn, Hm|]); split; [done|];
    apply negb_true_iff in Hr;
    destruct (Nat.lt_ge_cases (receiveCount m) 3) as [|Hge]; [done|];
    apply redrive_order_queue in Hge;
    change (source orderEventSource) with orderQueue in Hr; congruence.
Qed.

Lemma poll_live ok qs m' :
  In m' (live (fst (poll orderEventSource ok qs))) ->
  In m' (skipn 10 (live qs)) \/ In m' (snd (poll orderEventSource ok qs)).
Proof.
  unfold poll. cbv zeta. destruct (ok _); cbn [fst snd live]; intros Hin.
  - by left.
  - apply in_app_iff in Hin. done.
Qed.

Lemma poll_not_delivered ok qs :
  exhausted qs ->
  forall m', In m' (snd (poll orderEventSource ok qs)) -> messageId m' <> id.
Proof.
  intros Hex m' Hin Hid.
  apply poll_delivered in Hin as (m & Hm & -> & Hlt).
  specialize (Hex m Hm Hid). lia.
Qed.

Lemma poll_exhausted ok qs :
  exhausted qs -> exhausted (fst (poll orderEventSource ok qs)).
Proof.
  intros Hex m Hin Hid. apply poll_live in Hin as [Hin|Hin].
  - apply Hex; [|done]. eapply in_skipn, Hin.
  - by apply (poll_not_delivered ok qs Hex) in Hin.
Qed.

Lemma polls_not_delivered outcomes : forall qs,
  exhausted qs ->
  forall batch m',
    In batch (snd (polls orderEventSource outcomes qs)) ->
    In m' batch -> messageId m' <> id.
Proof.
  induction outcomes as [|ok rest IH]; intros qs Hex batch m' Hb Hm; [done|].
  cbn [polls] in Hb.
  pose proof (poll_not_delivered ok qs Hex) as Hnow.
  pose proof (poll_exhausted ok qs Hex) as Hnext.
  destruct (poll orderEventSource ok qs) as [qs1 b1].
  destruct (polls orderEventSource rest qs1) as [qs2 bs] eqn:Hrest.
  cbn [snd fst] in *. destruct Hb as [<-|Hb].
  - by apply Hnow.
  - apply (IH qs1 Hnext batch m'); [|done]. by rewrite Hrest.
Qed.

End Redrive.

Lemma NoDup_ids_inj (l : list Message) m m' :
  NoDup (map messageId l) -> In m l -> In m' l ->
  messageId m = messageId m' -> m = m'.
Proof.
  induction l as [|a l IH]; cbn; intros Hnd Hm Hm' Hid; [done|].
  apply NoDup_cons in Hnd as [Hna Hnd].
  destruct Hm as [->|Hm], Hm' as [->|Hm']; [done| | |by apply IH].
  - exfalso. apply Hna. rewrite Hid. apply list_elem_of_In, in_map, Hm'.
  - exfalso. apply Hna. rewrite <- Hid. apply list_elem_of_In, in_map, Hm.
Qed.

(** C6: a message of order-queue that has been received three times and is
    still live (each delivery failed, a delivery that succeeds deletes the
    message) is never delivered to the function again, whatever polls
    follow; the next poll that receives it moves it to order-dlq, after
    which no live message carries its id. *)
Theorem C6_dead_letter_after_three
  (qs : Queues) (m : Message) (outcomes : list (list Message -> bool)) :
  NoDup (map messageId (live qs)) ->
  In m (live qs) ->
  receiveCount m = 3 ->
  queue <$> deadLetterQueue (source orderEventSource) = Some orderDlq /\
  (forall batch m',
     In batch (snd (polls orderEventSource outcomes qs)) ->
     In m' batch -> messageId m' <> messageId m) /\
  (In m (firstn (batchSize orderEventSource) (live qs)) ->
   forall ok,
     In m (dead (fst (poll orderEventSource ok qs))) /\
     (forall m', In m' (live (fst (poll orderEventSource ok qs))) ->
                 messageId m' <> messageId m) /\
     (forall m', In m' (snd (poll orderEventSource ok qs)) ->
                 messageId m' <> messageId m)).
Proof.
  intros Hnd Hm Hcount.
  assert (exhausted (messageId m) qs) as Hex.
  { intros m' Hm' Hid. rewrite (NoDup_ids_inj _ _ _ Hnd Hm' Hm Hid). lia. }
  split; [reflexivity|]. split.
  - by apply polls_not_delivered.
  - intros Hfirst ok.
    pose proof (poll_not_delivered _ ok qs Hex) as Hbatch.
    split; [|split; [|done]].
    + unfold poll. cbv zeta. destruct (ok _); cbn [fst dead].
      all: apply in_app_iff; right; apply filter_In; split; [done|];
        apply redrive_order_queue; lia.
    + intros m' Hlive Hid. apply poll_live in Hlive as [Hlive|Hlive];
        [|by apply Hbatch in Hlive].
      cbn [batchSize orderEventSource] in Hfirst.
      assert (m' = m) as ->.
      { apply (NoDup_ids_inj _ _ _ Hnd); [eapply in_skipn, Hlive|done|done]. }
      rewrite <- (firstn_skipn 10 (live qs)), map_app in Hnd.
      apply NoDup_app in Hnd as (_ & Hdisj & _).
      apply (Hdisj (messageId m)); apply list_elem_of_In, in_map; done.
Qed.

Lemma C6_dead_letter_after_three_witness :
  NoDup (map messageId (live after_three_failures)) /\
  In thrice_failed (live after_three_failures) /\
  receiveCount thrice_failed = 3 /\
  (queue <$> deadLetterQueue (source orderEventSource) = Some orderDlq /\
   (forall batch m',
      In batch (snd (polls orderEventSource [always_fails] after_three_failures)) ->
      In m' batch -> messageId m' <> messageId thrice_failed) /\
   (In thrice_failed
       (firstn (batchSize orderEventSource) (live after_three_failures)) ->
    forall ok,
      In thrice_failed (dead (fst (poll orderEventSource ok after_three_failures))) /\
      (forall m', In m' (live (fst (poll orderEventSource ok after_three_failures))) ->
                  messageId m' <> messageId thrice_failed) /\
      (forall m', In m' (snd (poll orderEventSource ok after_three_failures)) ->
                  messageId m' <> messageId thrice_failed))).
Proof.
  assert (NoDup (map messageId (live after_three_failures))) as Hnd.
  { vm_compute. apply NoDup_singleton. }
  assert (In thrice_failed (live after_three_failures)) as Hin.
  { vm_compute. left. reflexivity. }
  split; [exact Hnd|]. split; [exact Hin|]. split; [reflexivity|].
  exact (C6_dead_letter_after_three after_three_failures thrice_failed
           [always_fails] Hnd Hin eq_refl).
Defined.

(** ** The order store *)

(** C7: for every order that carries a string orderId, putting it and then
    getting the orderId that put returned gives back the order itself,
    whatever the table held before. *)
Theorem C7_get_after_put
  (items : gmap string json) (order : list (string * json)) (orderId : string) :
  get_field "orderId" order = Some (JStr orderId) ->
  exists items',
    put order items = Some (orderId, items') /\
    get orderId items' = Some (JObj order).
Proof.
  intros Hid. unfold put, put_item, key_of.
  cbn [type name partitionKey ordersTable]. rewrite Hid.
  eexists. split; [reflexivity|].
  unfold get, get_item. apply lookup_insert_eq.
Qed.

Lemma C7_get_after_put_witness :
  get_field "orderId" alice_order =
    Some (JStr "dbdbbfe3-a4d8-408d-ad55-78b1de2e3873") /\
  exists items',
    put alice_order ∅ = Some ("dbdbbfe3-a4d8-408d-ad55-78b1de2e3873", items') /\
    get "dbdbbfe3-a4d8-408d-ad55-78b1de2e3873" items' = Some (JObj alice_order).
Proof.
  split; [reflexivity|].
  apply (C7_get_after_put ∅ alice_order "dbdbbfe3-a4d8-408d-ad55-78b1de2e3873").
  reflexivity.
Defined.

(** ** The configuration *)

(** C8 (as amended): the parameter is stored under the name
    /orders/config/max-items, the only parameter of the stack, and its value
    is the string 100, whose decimal reading is the number 100; the one
    grant on it gives read access, to ProcessOrderFunction, which receives
    the name in MAX_ITEMS_PARAM. *)
Theorem C8_max_items_parameter :
  get_parameter "/orders/config/max-items" (parameter_store stringParameters) =
    Some "100" /\
  parse_int "100" = Some 100%N /\
  description appConfigParam = "Maximum items per order" /\
  (forall n v, get_parameter n (parameter_store stringParameters) = Some v ->
               n = "/orders/config/max-items") /\
  List.filter (fun g => String.eqb (resource g) "AppConfigParam") grants =
    [ {| resource := "AppConfigParam"; access := Read; grantee := processOrderFn |} ] /\
  get_field_env "MAX_ITEMS_PARAM" (environment processOrderFn) =
    Some (Literal "/orders/config/max-items").
Proof.
  split; [reflexivity|]. split; [reflexivity|]. split; [reflexivity|].
  split; [|split; reflexivity].
  intros n v. unfold get_parameter, parameter_store.
  cbn [map stringParameters list_to_map foldr uncurry parameterName stringValue
       appConfigParam].
  intros H. apply lookup_insert_Some in H as [[<- _]|[_ H]]; [done|].
  by rewrite lookup_empty in H.
Qed.

(** C8, counterexample: the parameter store of the stack holds nothing under
    the key max-items-per-order, and what it holds for the maximum number of
    items is a string, not a number. *)
Lemma C8_counterexample :
  get_parameter "max-items-per-order" (parameter_store stringParameters) = None /\
  map stringValue stringParameters = ["100"].
Proof. split; reflexivity. Qed.

(** ** More on the workflow *)

Lemma find_receipt :
  find_state "GenerateReceipt" workflow_states =
  Some (addNext notifyCustomer generateReceipt).
Proof. reflexivity. Qed.

Lemma find_notify :
  find_state "NotifyCustomer" workflow_states =
  Some (addNext orderComplete notifyCustomer).
Proof. reflexivity. Qed.

Lemma find_complete :
  find_state "OrderComplete" workflow_states = Some orderComplete.
Proof. reflexivity. Qed.

Lemma run_receipt env doc :
  run_state env (addNext notifyCustomer generateReceipt) doc =
  payload_result (invoke env "GenerateReceiptFunction" doc).
Proof. unfold run_state. cbn. by destruct (invoke env _ doc). Qed.

Lemma run_notify env doc :
  run_state env (addNext orderComplete notifyCustomer) doc =
  payload_result (invoke env "ProcessOrderFunction" doc).
Proof. unfold run_state. cbn. by destruct (invoke env _ doc). Qed.

Lemma run_complete env doc : run_state env orderComplete doc = Output doc.
Proof. reflexivity. Qed.

(** Symbolic execution of [OrderWorkflow] on an order: one case for each
    state the timeout can strike in, one for each function that can throw,
    and one for the run to the end. *)
Ltac leave H := cbn in H; injection H as <-.

Ltac enter H find :=
  rewrite exec_unfold, find in H; cbv zeta in H;
  let Ht := fresh "Ht" in
  destruct (timed_out _ _) eqn:Ht;
  [apply timed_out_spec in Ht | apply timed_out_false in Ht];
  change (toSeconds (Duration_minutes 5)) with 300 in Ht;
  [leave H|].

Ltac invoked H f :=
  let Hf := fresh "Hinvoke" in
  match type of H with
  | context [invoke ?e f ?d] =>
      destruct (invoke e f d) as [?payload|?error] eqn:Hf
  end;
  cbn [payload_result] in H; [|leave H].

Ltac workflow_cases H :=
  rewrite start_unfold in H;
  enter H find_validate;
  [|rewrite run_validate in H;
    cbn [nextState addNext stateName processPayment] in H;
    enter H find_payment;
    [|rewrite run_payment in H;
      cbn [nextState addNext stateName generateReceipt] in H;
      enter H find_receipt;
      [|rewrite run_receipt in H;
        invoked H "GenerateReceiptFunction";
        [cbn [nextState addNext stateName notifyCustomer] in H;
         enter H find_notify;
         [|rewrite run_notify in H;
           invoked H "ProcessOrderFunction";
           [cbn [nextState addNext stateName orderComplete] in H;
            enter H find_complete;
            [|rewrite run_complete in H; leave H]|]]|]]]].

(** Two outcomes recorded for one invocation are one outcome. *)
Ltac same_invocation :=
  repeat match goal with
  | H1 : invoke ?e ?f ?d = _, H2 : invoke ?e ?f ?d = _ |- _ =>
      rewrite H1 in H2; first [discriminate H2 | injection H2 as <-]
  end.


(** X2: an execution on an order fails for one of three reasons only: the
    timeout, an error thrown by the receipt function (GenerateReceipt is
    then the last state entered), or an error thrown by the processing
    function on what the receipt function returned (NotifyCustomer is then
    the last state entered).  The error of the execution is the error
    thrown. *)
Theorem workflow_failure_causes
  (env : Environment) (members : list (string * json)) (error : string) :
  exists x,
    start_execution OrderWorkflow env (JObj members) = Some x /\
    (status x = FAILED error ->
     error = "States.Timeout" \/
     (invoke env "GenerateReceiptFunction" (receipt_request members) =
        Thrown error /\
      entered_states x = ["ValidateOrder"; "ProcessPayment"; "GenerateReceipt"]) \/
     (exists receipt,
        invoke env "GenerateReceiptFunction" (receipt_request members) =
          Returned receipt /\
        invoke env "ProcessOrderFunction" receipt = Thrown error /\
        entered_states x =
          ["ValidateOrder"; "ProcessPayment"; "GenerateReceipt"; "NotifyCustomer"])).
Proof.
  destruct (workflow_total OrderWorkflow env (JObj members) eq_refl) as [x Hx].
  exists x. split; [done|]. unfold receipt_request.
  workflow_cases Hx; cbn [status]; intros Hs; try discriminate Hs;
    injection Hs as <-.
  all: try (left; reflexivity).
  - right. right. exists payload. done.
  - right. left. done.
Qed.

(** X3: when the receipt function throws, and the three states up to it
    end within the 300 seconds, the execution fails with the error thrown,
    GenerateReceipt is the last state entered, and NotifyCustomer is not
    entered: the processing function is not invoked. *)
Theorem receipt_failure_stops
  (env : Environment) (members : list (string * json)) (error : string) :
  invoke env "GenerateReceiptFunction" (receipt_request members) = Thrown error ->
  latency env "ValidateOrder" (JObj members) +
  latency env "ProcessPayment" (JObj (set_field "validation" validated members)) +
  latency env "GenerateReceipt" (receipt_request members) <= 300 ->
  exists x,
    start_execution OrderWorkflow env (JObj members) = Some x /\
    status x = FAILED error /\
    entered_states x = ["ValidateOrder"; "ProcessPayment"; "GenerateReceipt"] /\
    ~ In "NotifyCustomer" (entered_states x).
Proof.
  unfold receipt_request. intros Hthrown Hle.
  destruct (workflow_total OrderWorkflow env (JObj members) eq_refl) as [x Hx].
  exists x. split; [done|].
  workflow_cases Hx; try discriminate Hthrown; try lia.
  injection Hthrown as <-. unfold entered_states, entered. cbn.
  split; [done|]. split; [done|]. intros [H|[H|[H|[]]]]; discriminate H.
Qed.

Lemma receipt_failure_stops_witness :
  invoke {| invoke := fun _ _ => Thrown "Error"; latency := fun _ _ => 1 |}
    "GenerateReceiptFunction" (receipt_request alice_order) = Thrown "Error" /\
  1 + 1 + 1 <= 300 /\
  exists x,
    start_execution OrderWorkflow
      {| invoke := fun _ _ => Thrown "Error"; latency := fun _ _ => 1 |}
      (JObj alice_order) = Some x /\
    status x = FAILED "Error" /\
    entered_states x = ["ValidateOrder"; "ProcessPayment"; "GenerateReceipt"] /\
    ~ In "NotifyCustomer" (entered_states x).
Proof.
  split; [reflexivity|]. split; [lia|].
  apply (receipt_failure_stops
           {| invoke := fun _ _ => Thrown "Error"; latency := fun _ _ => 1 |}
           alice_order "Error"); [reflexivity | cbn; lia].
Defined.

(** X4: an input that is not a JSON object never gets past ValidateOrder:
    the result path [$.validation] cannot be placed in it, the execution
    fails with States.ResultPathMatchFailure (or with States.Timeout when
    the state is held up for more than 300 seconds), and no function is
    invoked. *)
Theorem not_an_object_fails (env : Environment) (doc : json) :
  is_object doc = false ->
  exists x,
    start_execution OrderWorkflow env doc = Some x /\
    entered_states x = ["ValidateOrder"] /\
    (latency env "ValidateOrder" doc <= 300 ->
     status x = FAILED "States.ResultPathMatchFailure") /\
    (300 < latency env "ValidateOrder" doc ->
     status x = FAILED "States.Timeout").
Proof.
  intros Hobj.
  destruct (workflow_total OrderWorkflow env doc eq_refl) as [x Hx].
  exists x. split; [done|].
  rewrite start_unfold, exec_unfold, find_validate in Hx. cbv zeta in Hx.
  destruct (timed_out _ _) eqn:Ht;
    [apply timed_out_spec in Ht | apply timed_out_false in Ht];
    change (toSeconds (Duration_minutes 5)) with 300 in Ht.
  - injection Hx as <-. cbn. split; [done|]. split; [lia|done].
  - assert (run_state env (addNext processPayment validateOrder) doc =
            Error "States.ResultPathMatchFailure") as Hrun.
    { destruct doc; try reflexivity. discriminate Hobj. }
    rewrite Hrun in Hx. injection Hx as <-. cbn. split; [done|].
    split; [done|lia].
Qed.

Lemma not_an_object_fails_witness :
  is_object (JArr [JObj alice_order]) = false /\
  exists x,
    start_execution OrderWorkflow sample_env (JArr [JObj alice_order]) = Some x /\
    entered_states x = ["ValidateOrder"] /\
    (latency sample_env "ValidateOrder" (JArr [JObj alice_order]) <= 300 ->
     status x = FAILED "States.ResultPathMatchFailure") /\
    (300 < latency sample_env "ValidateOrder" (JArr [JObj alice_order]) ->
     status x = FAILED "States.Timeout").
Proof.
  split; [reflexivity|].
  apply (not_an_object_fails sample_env (JArr [JObj alice_order])). reflexivity.
Defined.

(** X5: whenever GenerateReceipt is entered, its input (the payload of the
    receipt function) is the order with [{ validated: true }] under
    validation and [{ paymentStatus: 'SUCCESS' }] under payment, and every
    other member of the order as it was submitted. *)
Theorem receipt_function_gets_whole_order
  (env : Environment) (members : list (string * json)) :
  exists x,
    start_execution OrderWorkflow env (JObj members) = Some x /\
    forall e,
      history x !! 2 = Some e ->
      enteredState e = "GenerateReceipt" /\
      exists fields,
        input e = JObj fields /\
        get_field "validation" fields = Some validated /\
        get_field "payment" fields = Some paid /\
        forall k, k <> "validation" -> k <> "payment" ->
                  get_field k fields = get_field k members.
Proof.
  destruct (workflow_total OrderWorkflow env (JObj members) eq_refl) as [x Hx].
  exists x. split; [done|].
  assert (forall k, k <> "validation" -> k <> "payment" ->
            get_field k (set_field "payment" paid
                           (set_field "validation" validated members)) =
            get_field k members) as Hframe.
  { intros k H1 H2. rewrite get_set_field_ne by done. by apply get_set_field_ne. }
  assert (get_field "validation"
            (set_field "payment" paid (set_field "validation" validated members)) =
          Some validated) as Hv.
  { rewrite get_set_field_ne by done. apply get_set_field_eq. }
  workflow_cases Hx; cbn; intros e He; try discriminate He;
    injection He as <-; cbn; (split; [done|]); eexists; (split; [reflexivity|]);
    (split; [exact Hv|]); (split; [apply get_set_field_eq|exact Hframe]).
Qed.

(** ** More on the queue *)

Lemma receptions_left_app id l1 l2 :
  receptions_left id (l1 ++ l2) = receptions_left id l1 + receptions_left id l2.
Proof. unfold receptions_left. by rewrite map_app, list_sum_app. Qed.

Lemma receptions_left_firstn_skipn id n l :
  receptions_left id l =
  receptions_left id (firstn n l) + receptions_left id (skipn n l).
Proof. by rewrite <- receptions_left_app, firstn_skipn. Qed.

(** Each delivery of a message called [id] uses up one of the receptions
    left to it. *)
Lemma delivered_uses_receptions id batch :
  length (List.filter (called id) (map receive (List.filter deliverable batch))) +
  receptions_left id (map receive (List.filter deliverable batch)) <=
  receptions_left id batch.
Proof.
  induction batch as [|m batch IH]; [done|].
  cbn [List.filter].
  destruct (redrive orderQueue m) eqn:Hr; cbn [negb].
  - change (receptions_left id (m :: batch))
      with ((if String.eqb (messageId m) id then 3 - receiveCount m else 0) +
            receptions_left id batch).
    lia.
  - assert (receiveCount m < 3) as Hlt.
    { destruct (Nat.lt_ge_cases (receiveCount m) 3) as [|Hge]; [done|].
      apply redrive_order_queue in Hge. congruence. }
    cbn [map List.filter].
    change (receptions_left id (receive m :: ?l))
      with ((if String.eqb (messageId m) id then 3 - S (receiveCount m) else 0) +
            receptions_left id l).
    change (receptions_left id (m :: batch))
      with ((if String.eqb (messageId m) id then 3 - receiveCount m else 0) +
            receptions_left id batch).
    change (messageId (receive m)) with (messageId m).
    destruct (String.eqb (messageId m) id); cbn [length]; lia.
Qed.

Lemma poll_uses_receptions id ok qs :
  length (List.filter (called id) (snd (poll orderEventSource ok qs))) +
  receptions_left id (live (fst (poll orderEventSource ok qs))) <=
  receptions_left id (live qs).
Proof.
  pose proof (delivered_uses_receptions id (firstn 10 (live qs))) as Hb.
  rewrite (receptions_left_firstn_skipn id 10 (live qs)).
  unfold poll. cbv zeta.
  change (batchSize orderEventSource) with 10.
  change (source orderEventSource) with orderQueue.
  destruct (ok _); cbn [fst snd live].
  - lia.
  - rewrite receptions_left_app. lia.
Qed.

Lemma polls_use_receptions id outcomes : forall qs,
  deliveries id (snd (polls orderEventSource outcomes qs)) <=
  receptions_left id (live qs).
Proof.
  induction outcomes as [|ok rest IH]; intros qs; [cbn; lia|].
  cbn [polls].
  pose proof (poll_uses_receptions id ok qs) as Hnow.
  destruct (poll orderEventSource ok qs) as [qs1 batch].
  specialize (IH qs1).
  destruct (polls orderEventSource rest qs1) as [qs2 batches].
  cbn [fst snd] in *. unfold deliveries in *.
  rewrite concat_cons, List.filter_app, length_app. lia.
Qed.

Lemma receptions_left_absent id l :
  (forall m, In m l -> messageId m <> id) -> receptions_left id l = 0.
Proof.
  induction l as [|a l IH]; intros H; [done|].
  change (receptions_left id (a :: l))
    with ((if String.eqb (messageId a) id then 3 - receiveCount a else 0) +
          receptions_left id l).
  rewrite IH by (intros m Hm; apply H; by right).
  destruct (String.eqb (messageId a) id) eqn:E; [|done].
  apply String.eqb_eq in E. exfalso. by apply (H a); [left|].
Qed.

Lemma receptions_left_unique l m :
  NoDup (map messageId l) -> In m l ->
  receptions_left (messageId m) l = 3 - receiveCount m.
Proof.
  induction l as [|a l IH]; cbn [map]; intros Hnd Hin; [done|].
  apply NoDup_cons in Hnd as [Hna Hnd].
  change (receptions_left (messageId m) (a :: l))
    with ((if String.eqb (messageId a) (messageId m) then 3 - receiveCount a else 0) +
          receptions_left (messageId m) l).
  destruct Hin as [->|Hin].
  - rewrite String.eqb_refl, receptions_left_absent; [lia|].
    intros m' Hm' Heq. apply Hna. rewrite <- Heq.
    apply list_elem_of_In, in_map, Hm'.
  - rewrite IH by done.
    destruct (String.eqb (messageId a) (messageId m)) eqn:E; [|done].
    apply String.eqb_eq in E. exfalso. apply Hna. rewrite E.
    apply list_elem_of_In, in_map, Hin.
Qed.

(** X7: however the polls of the event source go, a live message of
    order-queue is delivered to the function at most three times counting
    the receptions it already has: at most 3 - receiveCount more times. *)
Theorem at_most_three_deliveries
  (qs : Queues) (m : Message) (outcomes : list (list Message -> bool)) :
  NoDup (map messageId (live qs)) ->
  In m (live qs) ->
  deliveries (messageId m) (snd (polls orderEventSource outcomes qs)) <=
  3 - receiveCount m.
Proof.
  intros Hnd Hin. rewrite <- (receptions_left_unique _ _ Hnd Hin).
  apply polls_use_receptions.
Qed.

Lemma at_most_three_deliveries_witness :
  NoDup (map messageId (live {| live := [fresh_message]; dead := [] |})) /\
  In fresh_message (live {| live := [fresh_message]; dead := [] |}) /\
  deliveries (messageId fresh_message)
    (snd (polls orderEventSource
            [always_fails; always_fails; always_fails; always_fails; always_fails]
            {| live := [fresh_message]; dead := [] |})) <=
  3 - receiveCount fresh_message.
Proof.
  assert (NoDup (map messageId (live {| live := [fresh_message]; dead := [] |})))
    as Hnd by (cbn; apply NoDup_singleton).
  assert (In fresh_message (live {| live := [fresh_message]; dead := [] |}))
    as Hin by (left; reflexivity).
  split; [exact Hnd|]. split; [exact Hin|].
  exact (at_most_three_deliveries {| live := [fresh_message]; dead := [] |}
           fresh_message
           [always_fails; always_fails; always_fails; always_fails; always_fails]
           Hnd Hin).
Defined.

Lemma length_filter_le {A} (f : A -> bool) l : length (List.filter f l) <= length l.
Proof. induction l as [|a l IH]; cbn; [done|]. destruct (f a); cbn; lia. Qed.

(** X8: a batch delivered to the function holds at most ten messages, and
    each of them has been received at least once and at most three times. *)
Theorem batch_bounds (ok : list Message -> bool) (qs : Queues) :
  length (snd (poll orderEventSource ok qs)) <= 10 /\
  forall m, In m (snd (poll orderEventSource ok qs)) ->
            1 <= receiveCount m <= 3.
Proof.
  split.
  - unfold poll. cbv zeta. destruct (ok _); cbn [snd].
    all: rewrite length_map; etrans; [apply length_filter_le|];
      apply firstn_le_length.
  - intros m Hm. apply poll_delivered in Hm as (m0 & _ & -> & Hlt). cbn. lia.
Qed.

(** X9: a poll loses no message and makes none up: the ids live or dead
    after the poll, with the ids of the batch when the function processed
    it, are the ids live or dead before it, each as often. *)
Theorem poll_loses_no_message (ok : list Message -> bool) (qs : Queues) :
  map messageId (live (fst (poll orderEventSource ok qs))) ++
  map messageId (dead (fst (poll orderEventSource ok qs))) ++
  (if ok (snd (poll orderEventSource ok qs))
   then map messageId (snd (poll orderEventSource ok qs)) else [])
  ≡ₚ map messageId (live qs) ++ map messageId (dead qs).
Proof.
  assert (forall l : list Message,
            map messageId (List.filter (redrive orderQueue) l) ++
            map messageId (map receive (List.filter deliverable l))
            ≡ₚ map messageId l) as Hsplit.
  { induction l as [|a l IH]; [done|]. cbn [List.filter].
    destruct (redrive orderQueue a); cbn [negb map app].
    - by rewrite IH.
    - rewrite <- Permutation_middle. change (messageId (receive a)) with (messageId a).
      by rewrite IH. }
  unfold poll. cbv zeta.
  change (batchSize orderEventSource) with 10.
  change (source orderEventSource) with orderQueue.
  assert (map messageId (live qs) ≡ₚ
          map messageId (firstn 10 (live qs)) ++ map messageId (skipn 10 (live qs)))
    as ->.
  { by rewrite <- map_app, firstn_skipn. }
  rewrite <- (Hsplit (firstn 10 (live qs))).
  destruct (ok _) eqn:Hok; cbn [fst snd live dead]; rewrite ?Hok, ?map_app.
  - solve_Permutation.
  - solve_Permutation.
Qed.

(** X10: the dead-letter queue only grows: what it held stays at its head,
    in order, and a message that joins it has been received three times or
    more. *)
Theorem dead_letters_only_grow
  (outcomes : list (list Message -> bool)) (qs : Queues) :
  dead qs `prefix_of` dead (fst (polls orderEventSource outcomes qs)) /\
  forall m, In m (dead (fst (polls orderEventSource outcomes qs))) ->
            In m (dead qs) \/ 3 <= receiveCount m.
Proof.
  revert qs. induction outcomes as [|ok rest IH]; intros qs.
  - cbn. split; [done|]. tauto.
  - cbn [polls].
    assert (dead (fst (poll orderEventSource ok qs)) =
            dead qs ++ List.filter (redrive orderQueue) (firstn 10 (live qs)))
      as Hdead.
    { unfold poll. cbv zeta. by destruct (ok _). }
    destruct (poll orderEventSource ok qs) as [qs1 batch].
    destruct (IH qs1) as [Hp Hc].
    destruct (polls orderEventSource rest qs1) as [qs2 batches].
    cbn [fst] in *. split.
    + etrans; [|exact Hp]. rewrite Hdead. by apply prefix_app_r.
    + intros m Hm. destruct (Hc m Hm) as [Hin|Hge]; [|by right].
      rewrite Hdead in Hin. apply in_app_iff in Hin as [Hin|Hin]; [by left|].
      apply filter_In in Hin as [_ Hr]. right. by apply redrive_order_queue.
Qed.

(** ** The HTTP API *)

Lemma split_on_lacks sep s : lacks sep s = true -> split_on sep s = [s].
Proof.
  induction s as [|c s IH]; [done|]. cbn [lacks split_on].
  intros [Hc Hs]%andb_true_iff. apply negb_true_iff in Hc. rewrite Hc.
  by rewrite (IH Hs).
Qed.

Lemma split_on_cons sep s : exists seg rest, split_on sep s = seg :: rest.
Proof.
  destruct s as [|c s]; cbn [split_on]; [eauto|].
  destruct (Ascii.eqb c sep); [eauto|]. destruct (split_on sep s); eauto.
Qed.

Lemma join_with_cons sep seg seg' rest :
  join_with sep (seg :: seg' :: rest) =
  (seg ++ String sep (join_with sep (seg' :: rest)))%string.
Proof. reflexivity. Qed.

Lemma join_with_head sep c seg rest :
  join_with sep (String c seg :: rest) = String c (join_with sep (seg :: rest)).
Proof. by destruct rest. Qed.

Lemma join_split sep s : join_with sep (split_on sep s) = s.
Proof.
  induction s as [|c s IH]; [done|]. cbn [split_on].
  destruct (split_on_cons sep s) as (seg & rest & Hs). rewrite Hs in *.
  destruct (Ascii.eqb_spec c sep) as [->|Hne].
  - by rewrite join_with_cons, IH.
  - by rewrite join_with_head, IH.
Qed.

Lemma split_segments_lack sep s seg :
  In seg (split_on sep s) -> lacks sep seg = true.
Proof.
  revert seg. induction s as [|c s IH]; intros seg; cbn [split_on].
  - intros [<-|[]]. done.
  - destruct (Ascii.eqb c sep) eqn:E.
    + intros [<-|H]; [done|by apply IH].
    + destruct (split_on sep s) as [|seg0 rest]; cbn [In].
      * intros [<-|[]]. cbn. by rewrite E.
      * intros [<-|H].
        -- cbn. rewrite E. cbn. apply IH. by left.
        -- apply IH. by right.
Qed.

Lemma split_on_sep sep s : split_on sep (String sep s) = "" :: split_on sep s.
Proof. cbn [split_on]. by rewrite Ascii.eqb_refl. Qed.

Lemma split_on_prefix sep pre s :
  lacks sep pre = true ->
  split_on sep (pre ++ String sep s)%string = pre :: split_on sep s.
Proof.
  induction pre as [|c pre IH]; cbn [lacks String.append].
  - intros _. apply split_on_sep.
  - intros [Hc Hs]%andb_true_iff. apply negb_true_iff in Hc.
    change (split_on sep (String c (pre ++ String sep s)%string) =
            String c pre :: split_on sep s).
    cbn [split_on]. by rewrite Hc, (IH Hs).
Qed.

(** X11: a GET for /orders/ followed by an id that is not empty and holds no
    slash goes to GetOrderFunction, with the id as the path parameter id. *)
Theorem get_order_route (id : string) :
  id <> "" -> lacks "/" id = true ->
  route_request routes GET ("/orders/" ++ id)%string =
    Some (getOrderFn, [("id", id)]).
Proof.
  intros Hne Hlacks.
  unfold route_request, routes, match_route.
  cbn [path methods integration existsb method_eqb orb].
  change (split_on "/" "/orders/{id}") with [""; "orders"; "{id}"].
  change (split_on "/" "/orders") with [""; "orders"].
  change ("/orders/" ++ id)%string
    with (String "/" ("orders" ++ String "/" id)%string).
  rewrite (split_on_sep "/" ("orders" ++ String "/" id)%string).
  rewrite split_on_prefix, split_on_lacks by done.
  apply String.eqb_neq in Hne.
  cbn. by rewrite Hne.
Qed.

Lemma match_orders segments params :
  match_segments [""; "orders"] segments = Some params ->
  segments = [""; "orders"] /\ params = [].
Proof.
  destruct segments as [|s0 [|s1 [|s2 rest]]]; cbn [match_segments];
    try discriminate.
  - change (path_variable "") with (@None string).
    destruct (String.eqb_spec "" s0); discriminate.
  - change (path_variable "") with (@None string).
    change (path_variable "orders") with (@None string).
    destruct (String.eqb_spec "" s0); [|discriminate].
    destruct (String.eqb_spec "orders" s1); [|discriminate].
    intros [= <-]. by subst.
  - change (path_variable "") with (@None string).
    change (path_variable "orders") with (@None string).
    destruct (String.eqb_spec "" s0); [|discriminate].
    destruct (String.eqb_spec "orders" s1); discriminate.
Qed.

Lemma match_order_id segments params :
  match_segments [""; "orders"; "{id}"] segments = Some params ->
  exists id, id <> "" /\ segments = [""; "orders"; id] /\ params = [("id", id)].
Proof.
  destruct segments as [|s0 [|s1 [|s2 [|s3 rest]]]]; cbn [match_segments];
    try discriminate.
  all: change (path_variable "") with (@None string);
    change (path_variable "orders") with (@None string);
    change (path_variable "{id}") with (Some "id");
    (destruct (String.eqb_spec "" s0); [|discriminate]);
    try (destruct (String.eqb_spec "orders" s1); [|discriminate]);
    try (destruct (String.eqb_spec s2 ""); [discriminate|]);
    try discriminate.
  cbn. intros [= <-]. exists s2. by subst.
Qed.

Lemma get_order_route_witness :
  "dbdbbfe3-a4d8-408d-ad55-78b1de2e3873" <> "" /\
  lacks "/" "dbdbbfe3-a4d8-408d-ad55-78b1de2e3873" = true /\
  route_request routes GET
    ("/orders/" ++ "dbdbbfe3-a4d8-408d-ad55-78b1de2e3873")%string =
    Some (getOrderFn, [("id", "dbdbbfe3-a4d8-408d-ad55-78b1de2e3873")]).
Proof.
  split; [discriminate|]. split; [reflexivity|].
  apply (get_order_route "dbdbbfe3-a4d8-408d-ad55-78b1de2e3873");
    [discriminate | reflexivity].
Defined.

(** X12: the API routes nothing else: a request that reaches a function is
    a POST of /orders, to CreateOrderFunction without path parameters, or a
    GET of /orders/ and one segment that is not empty, to GetOrderFunction
    with that segment as id.  Every other method or path is not found, and
    no request reaches ProcessOrderFunction or GenerateReceiptFunction. *)
Theorem routed_requests (m : HttpMethod) (request : string)
  (f : Function) (params : list (string * string)) :
  route_request routes m request = Some (f, params) ->
  (m = POST /\ request = "/orders" /\ f = createOrderFn /\ params = []) \/
  (m = GET /\ f = getOrderFn /\
   exists id, id <> "" /\ lacks "/" id = true /\
              request = ("/orders/" ++ id)%string /\ params = [("id", id)]).
Proof.
  unfold route_request, routes, match_route.
  cbn [path methods integration existsb].
  change (split_on "/" "/orders/{id}") with [""; "orders"; "{id}"].
  change (split_on "/" "/orders") with [""; "orders"].
  pose proof (join_split "/" request) as Hjoin.
  pose proof (split_segments_lack "/" request) as Hlack.
  destruct m; cbn [method_eqb orb]; try discriminate.
  - destruct (match_segments _ _) as [ps|] eqn:Hm; [|discriminate].
    intros [= <- <-]. right.
    apply match_order_id in Hm as (id & Hne & Hs & ->). rewrite Hs in *.
    split; [done|]. split; [done|]. exists id.
    split; [done|]. split; [apply Hlack; cbn; tauto|]. done.
  - destruct (match_segments _ _) as [ps|] eqn:Hm; [|discriminate].
    intros [= <- <-]. left.
    apply match_orders in Hm as [Hs ->]. rewrite Hs in *. done.
Qed.

Lemma routed_requests_witness :
  route_request routes POST "/orders" = Some (createOrderFn, []) /\
  ((POST = POST /\ "/orders" = "/orders" /\ createOrderFn = createOrderFn /\
    @nil (string * string) = []) \/
   (POST = GET /\ createOrderFn = getOrderFn /\
    exists id, id <> "" /\ lacks "/" id = true /\
               "/orders" = ("/orders/" ++ id)%string /\
               @nil (string * string) = [("id", id)])).
Proof.
  split; [reflexivity|].
  apply (routed_requests POST "/orders" createOrderFn []). reflexivity.
Defined.

(** ** The bucket *)

Lemma lacks_app_inj c a a' r r' :
  lacks c a = true -> lacks c a' = true ->
  (a ++ String c r)%string = (a' ++ String c r')%string -> a = a' /\ r = r'.
Proof.
  revert a'. induction a as [|x a IH]; intros [|x' a'] Ha Ha' H.
  - by injection H as ->.
  - exfalso. injection H as <- _. cbn in Ha'. by rewrite Ascii.eqb_refl in Ha'.
  - exfalso. injection H as -> _. cbn in Ha. by rewrite Ascii.eqb_refl in Ha.
  - injection H as <- H. cbn in Ha, Ha'.
    apply andb_true_iff in Ha as [_ Ha]. apply andb_true_iff in Ha' as [_ Ha'].
    destruct (IH a' Ha Ha' H) as [-> ->]. done.
Qed.

Lemma append_inv_head p a b : (p ++ a)%string = (p ++ b)%string -> a = b.
Proof.
  induction p as [|c p IH]; [done|]. intros H. injection H as H. by apply IH.
Qed.

(** X13: the name of the receipts bucket tells the account and the region
    apart: for accounts without a dash (an account id is made of digits) two
    stacks with the same bucket name have the same account and region. *)
Theorem bucket_name_injective (account region account' region' : string) :
  lacks "-" account = true -> lacks "-" account' = true ->
  receiptsBucketName account region = receiptsBucketName account' region' ->
  account = account' /\ region = region'.
Proof.
  intros Ha Ha' H. unfold receiptsBucketName in H.
  apply append_inv_head in H.
  by apply (lacks_app_inj "-" account account' region region' Ha Ha').
Qed.

Lemma bucket_name_injective_witness :
  lacks "-" "123456789012" = true /\ lacks "-" "123456789012" = true /\
  receiptsBucketName "123456789012" "eu-west-1" =
    receiptsBucketName "123456789012" "eu-west-1" /\
  "123456789012" = "123456789012" /\ "eu-west-1" = "eu-west-1".
Proof.
  split; [reflexivity|]. split; [reflexivity|]. split; [reflexivity|].
  apply (bucket_name_injective "123456789012" "eu-west-1" "123456789012" "eu-west-1");
    reflexivity.
Defined.

(** ** More on the table *)

Lemma put_all_app orders orders' items :
  put_all (orders ++ orders') items = put_all orders' (put_all orders items).
Proof. unfold put_all. by rewrite fold_left_app. Qed.

(** X14: after any run of puts on the Orders table, getting a key returns
    the last order of the run that carries a string orderId equal to the
    key, whole; when the run has none, it returns what the table held
    before.  Orders without a string orderId are rejected and change
    nothing. *)
Theorem get_after_puts (k : string) (orders : list (list (string * json)))
  (items : gmap string json) :
  get_item k (put_all orders items) =
  match last_put k orders with
  | Some order => Some (JObj order)
  | None => get_item k items
  end.
Proof.
  induction orders as [|order orders IH] using rev_ind; [done|].
  rewrite put_all_app. unfold last_put. rewrite rev_app_distr.
  cbn [rev app List.find put_all fold_left].
  unfold put_item, key_of. cbn [type name partitionKey ordersTable].
  destruct (get_field "orderId" order) as [[| | |k'| |]|]; try exact IH.
  unfold get_item in *.
  destruct (String.eqb_spec k' k) as [->|Hne].
  - apply lookup_insert_eq.
  - rewrite lookup_insert_ne by done. exact IH.
Qed.

(** ** More on the steps *)

(** X6: when the receipt function returns and the processing function then
    throws, within the 300 seconds, the execution fails with the error
    thrown although the receipt step has completed: NotifyCustomer is the
    last state entered and nothing undoes GenerateReceipt. *)
Theorem notify_failure_fails
  (env : Environment) (members : list (string * json))
  (receipt : json) (error : string) :
  invoke env "GenerateReceiptFunction" (receipt_request members) = Returned receipt ->
  invoke env "ProcessOrderFunction" receipt = Thrown error ->
  latency env "ValidateOrder" (JObj members) +
  latency env "ProcessPayment" (JObj (set_field "validation" validated members)) +
  latency env "GenerateReceipt" (receipt_request members) +
  latency env "NotifyCustomer" receipt <= 300 ->
  exists x,
    start_execution OrderWorkflow env (JObj members) = Some x /\
    status x = FAILED error /\
    entered_states x =
      ["ValidateOrder"; "ProcessPayment"; "GenerateReceipt"; "NotifyCustomer"] /\
    completed_steps x = ["ValidateOrder"; "ProcessPayment"; "GenerateReceipt"].
Proof.
  unfold receipt_request. intros Hreceipt Hthrown Hle.
  destruct (workflow_total OrderWorkflow env (JObj members) eq_refl) as [x Hx].
  exists x. split; [done|].
  workflow_cases Hx; try discriminate Hreceipt; try lia.
  all: injection Hreceipt as <-; same_invocation; try lia.
  done.
Qed.

Lemma notify_failure_fails_witness :
  invoke {| invoke := fun f d =>
                        if String.eqb f "ProcessOrderFunction"
                        then Thrown "Error" else Returned d;
            latency := fun _ _ => 1 |}
    "GenerateReceiptFunction" (receipt_request alice_order) =
    Returned (receipt_request alice_order) /\
  invoke {| invoke := fun f d =>
                        if String.eqb f "ProcessOrderFunction"
                        then Thrown "Error" else Returned d;
            latency := fun _ _ => 1 |}
    "ProcessOrderFunction" (receipt_request alice_order) = Thrown "Error" /\
  1 + 1 + 1 + 1 <= 300 /\
  exists x,
    start_execution OrderWorkflow
      {| invoke := fun f d =>
                     if String.eqb f "ProcessOrderFunction"
                     then Thrown "Error" else Returned d;
         latency := fun _ _ => 1 |}
      (JObj alice_order) = Some x /\
    status x = FAILED "Error" /\
    entered_states x =
      ["ValidateOrder"; "ProcessPayment"; "GenerateReceipt"; "NotifyCustomer"] /\
    completed_steps x = ["ValidateOrder"; "ProcessPayment"; "GenerateReceipt"].
Proof.
  split; [reflexivity|]. split; [reflexivity|]. split; [lia|].
  apply (notify_failure_fails
           {| invoke := fun f d =>
                          if String.eqb f "ProcessOrderFunction"
                          then Thrown "Error" else Returned d;
              latency := fun _ _ => 1 |}
           alice_order (receipt_request alice_order) "Error");
    [reflexivity | reflexivity | cbn; lia].
Defined.

(** X15: what a result path places in a document is what the same path
    selects from the result: when [ResultPath] can be applied, reading the
    path back gives the value written, at any depth. *)
Theorem result_path_read_back (segments : list string) (v doc doc' : json) :
  set_path segments v doc = Some doc' ->
  get_path segments doc' = Some v.
Proof.
  revert doc doc'. induction segments as [|k rest IH]; intros doc doc' H.
  - cbn [set_path] in H. by injection H as <-.
  - cbn [set_path] in H. destruct doc; try discriminate H.
    destruct (set_path rest v _) as [child'|] eqn:Hchild; [|discriminate H].
    injection H as <-. cbn [get_path]. rewrite get_set_field_eq.
    by apply IH in Hchild.
Qed.

Lemma result_path_read_back_witness :
  set_path ["payment"; "card"; "status"] (JStr "SUCCESS") (JObj alice_order) =
    Some (JObj (alice_order ++
                [("payment", JObj [("card", JObj [("status", JStr "SUCCESS")])])])) /\
  get_path ["payment"; "card"; "status"]
    (JObj (alice_order ++
           [("payment", JObj [("card", JObj [("status", JStr "SUCCESS")])])])) =
    Some (JStr "SUCCESS").
Proof.
  split; [reflexivity|].
  apply (result_path_read_back ["payment"; "card"; "status"] (JStr "SUCCESS")
           (JObj alice_order)).
  reflexivity.
Defined.
